(** * Limit order book: shallow embedding of [Source.cpp] and its properties

    The development follows the C++ translation unit top to bottom: the two
    enumerations, the integer aliases, [LevelInfo], [Order], [OrderModify],
    [Trade] and finally the [OrderBook] class with its private matching
    routine and its public operations.

    Modelling conventions.
    - [Price] is [std::int32_t] and is only ever compared: it is a [Z].
      [Quantity] ([std::uint32_t]) and [OrderId] ([std::uint64_t]) are [N];
      the one unsigned addition and the one unguarded unsigned subtraction of
      the program are written with their wrap-around at [2^32].
    - [std::map<Price, OrderPointers, Cmp>] is a list of (price, queue) pairs
      kept in the order of the comparator, so that [begin()] is the head.
    - [std::unordered_map<OrderId, OrderEntry>] is a [gmap].
    - An [Order] is reached through [shared_ptr]s held by a queue node and by
      the registry entry.  The queue node carries the order; the registry entry
      carries the same order, and a [Fill] through the pointer is written to
      both (see [MatchFront]).
    - A [std::list] iterator is a stable handle on one node.  A node is named
      here by the identifier of the order it stores.
    - The source reads several references after the element they were bound
      to has been destroyed ([bid] after [pop_front], [bids] after
      [bids_.erase], [order] after [orders_.erase]).  The language gives such
      a read no meaning.  Each of them is written [dangling], with its source
      line, in the definition of the routine that performs it, and the
      routines take the reading of these reads as a parameter of type
      [Reads].  Under [Strict] a read through a destroyed reference ends the
      call with the outcome [Undefined line].  Under [AsBuilt] freed storage
      still holds what it held when it was freed: the read yields the value
      that was bound, and a queue whose level was erased has size zero.
    - Exceptions, undefined behaviour and the absence of a result are
      explicit in the type [res]; console output is not modelled. *)

From stdpp Require Import gmap list sorting.
From Stdlib Require Import ZArith NArith Lia.

Local Open Scope Z_scope.

(** ** Results of fallible code *)

Inductive exn := logic_error | out_of_range.

Inductive res (A : Type) : Type :=
| Ok (a : A)
| Throw (e : exn)
| OutOfFuel
| Undefined (line : nat).
Arguments Ok {A} a.
Arguments Throw {A} e.
Arguments OutOfFuel {A}.
Arguments Undefined {A} line.

#[export] Instance res_ret : MRet res := fun A a => Ok a.
#[export] Instance res_bind : MBind res := fun A B f m =>
  match m with
  | Ok a => f a
  | Throw e => Throw e
  | OutOfFuel => OutOfFuel
  | Undefined line => Undefined line
  end.

(** ** Reads through destroyed references *)

Inductive Reads := Strict | AsBuilt.

(** A read, at the source line [line], through a reference whose referent
    has been destroyed; [bound] is the value the reference had when it was
    bound. *)
Definition dangling {A : Type} (reads : Reads) (line : nat) (bound : A) : res A :=
  match reads with
  | Strict => Undefined line
  | AsBuilt => Ok bound
  end.

(** ** Enumerations and integer aliases (lines 12-24) *)

Inductive OrderType := GoodTillCancel | FillAndKill.
Inductive Side := Buy | Sell.

#[export] Instance OrderType_eq_dec : EqDecision OrderType.
Proof. solve_decision. Defined.
#[export] Instance Side_eq_dec : EqDecision Side.
Proof. solve_decision. Defined.

Abbreviation Price := Z (only parsing).
Abbreviation Quantity := N (only parsing).
Abbreviation OrderId := N (only parsing).

(** [Quantity] arithmetic is arithmetic modulo [2^32]. *)
Definition Quantity_modulus : N := 2 ^ 32.
Definition Quantity_wrap (n : Z) : N := Z.to_N (n mod Z.of_N Quantity_modulus).

(** ** [LevelInfo] and [OrderBookLevelInfos] (lines 27-49) *)

Module LevelInfo.
Record t := mk { price_ : Price; quantity_ : Quantity }.
End LevelInfo.

Abbreviation LevelInfos := (list LevelInfo.t) (only parsing).

Module OrderBookLevelInfos.
Record t := mk { bids_ : LevelInfos; asks_ : LevelInfos }.
Definition GeBids (i : t) := bids_ i.
Definition GetAsks (i : t) := asks_ i.
End OrderBookLevelInfos.

(** ** [Order] (lines 51-91) *)

Module Order.
Record t := mk {
  order_type_ : OrderType;
  order_id_ : OrderId;
  side_ : Side;
  initial_quantity_ : Quantity;
  remaining_quantity_ : Quantity;
  price_ : Price
}.

(** The constructor: the remaining quantity starts at the initial one. *)
Definition new (order_type : OrderType) (order_id : OrderId) (side : Side)
    (price : Price) (quantity : Quantity) : t :=
  mk order_type order_id side quantity quantity price.

Definition GetOrderId := order_id_.
Definition GetSide := side_.
Definition GetPrice := price_.
Definition GetOrderType := order_type_.
Definition GetInitialQuantity := initial_quantity_.
Definition GetRemainingQuantity := remaining_quantity_.
Definition GetFilledQuantity (o : t) : Quantity :=
  Quantity_wrap (Z.of_N (GetInitialQuantity o) - Z.of_N (GetRemainingQuantity o)).
Definition IsFilled (o : t) : bool := (GetRemainingQuantity o =? 0)%N.

Definition Fill (quantity : Quantity) (o : t) : res t :=
  if (GetRemainingQuantity o <? quantity)%N then Throw logic_error
  else Ok (mk (order_type_ o) (order_id_ o) (side_ o) (initial_quantity_ o)
              (remaining_quantity_ o - quantity)%N (price_ o)).
End Order.

Abbreviation OrderPointer := Order.t (only parsing).
Abbreviation OrderPointers := (list Order.t) (only parsing).

(** ** [OrderModify] (lines 98-125) *)

Module OrderModify.
Record t := mk {
  order_id_ : OrderId;
  side_ : Side;
  price_ : Price;
  quantity_ : Quantity
}.
Definition GetOrderId := order_id_.
Definition GetSide := side_.
Definition GetPrice := price_.
Definition GetQuantity := quantity_.

Definition ToOrderPointer (m : t) (type : OrderType) : OrderPointer :=
  Order.new type (GetOrderId m) (GetSide m) (GetPrice m) (GetQuantity m).
End OrderModify.

(** ** [TradeInfo] and [Trade] (lines 128-150) *)

Module TradeInfo.
Record t := mk { order_id_ : OrderId; price_ : Price; quanity_ : Quantity }.
End TradeInfo.

Module Trade.
Record t := mk { bid_trade_ : TradeInfo.t; ask_trade_ : TradeInfo.t }.
Definition GetBidTrade := bid_trade_.
Definition GetAskTrade := ask_trade_.
End Trade.

Abbreviation Trades := (list Trade.t) (only parsing).

(** ** The ordered price maps

    [std::map<Price, OrderPointers, Cmp>]: [before a b] is [Cmp(a, b)], that
    is [std::greater] for bids and [std::less] for asks. *)

Abbreviation Levels := (list (Z * list Order.t)) (only parsing).

Module PriceMap.

Definition greater (a b : Price) : bool := b <? a.
Definition less (a b : Price) : bool := a <? b.

(** [m[price].push_back(order)]: [operator[]] creates the level when it is
    absent, at the place the comparator gives it. *)
Fixpoint push_back_at (before : Price -> Price -> bool) (price : Price)
    (order : OrderPointer) (m : Levels) : Levels :=
  match m with
  | [] => [(price, [order])]
  | (p, orders) :: rest =>
      if p =? price then (p, orders ++ [order]) :: rest
      else if before price p then (price, [order]) :: (p, orders) :: rest
      else (p, orders) :: push_back_at before price order rest
  end.

(** [m.at(price)] *)
Fixpoint at_ (price : Price) (m : Levels) : res OrderPointers :=
  match m with
  | [] => Throw out_of_range
  | (p, orders) :: rest => if p =? price then Ok orders else at_ price rest
  end.

(** Reading the queue through a reference bound to the level at [price]. *)
Definition level (price : Price) (m : Levels) : OrderPointers :=
  match at_ price m with
  | Ok orders => orders
  | _ => []
  end.

(** Writing the queue through a reference bound to the level at [price]. *)
Fixpoint assign (price : Price) (orders : OrderPointers) (m : Levels) : Levels :=
  match m with
  | [] => []
  | (p, old) :: rest =>
      if p =? price then (p, orders) :: rest
      else (p, old) :: assign price orders rest
  end.

(** [m.erase(price)] *)
Fixpoint erase (price : Price) (m : Levels) : Levels :=
  match m with
  | [] => []
  | (p, orders) :: rest =>
      if p =? price then rest else (p, orders) :: erase price rest
  end.

(** The queue after the mutation of a level: [if (orders.empty())
    m.erase(price)], the mutated queue staying in place otherwise. *)
Definition store (price : Price) (orders : OrderPointers) (m : Levels) : Levels :=
  match orders with
  | [] => erase price m
  | _ => assign price orders m
  end.

End PriceMap.

(** [orders.erase(iterator)] on a [std::list]: the node the iterator names
    is unlinked, the others keep their order. *)
Fixpoint list_erase (iterator : OrderId) (orders : OrderPointers) : OrderPointers :=
  match orders with
  | [] => []
  | o :: rest =>
      if (Order.order_id_ o =? iterator)%N then rest
      else o :: list_erase iterator rest
  end.

(** ** [OrderBook] (lines 152-317) *)

Module OrderBook.

Record OrderEntry := mkEntry {
  order_ : OrderPointer;
  location_ : OrderId
}.

Record t := mk {
  bids_ : Levels;
  asks_ : Levels;
  orders_ : gmap N OrderEntry
}.

(** A default-constructed book. *)
Definition empty : t := mk [] [] ∅.

Definition Size (b : t) : nat := size (orders_ b).

(** Lines 176-189. *)
Definition CanMatch (side : Side) (price : Price) (b : t) : bool :=
  match side with
  | Buy =>
      match asks_ b with
      | [] => false
      | (best_ask, _) :: _ => best_ask <=? price
      end
  | Sell =>
      match bids_ b with
      | [] => false
      | (best_bid, _) :: _ => price <=? best_bid
      end
  end.

(** A write to the order [o] through its pointer, seen from the registry. *)
Definition write_through (o : OrderPointer) (orders : gmap N OrderEntry)
    : gmap N OrderEntry :=
  alter (fun e => mkEntry o (location_ e)) (Order.GetOrderId o) orders.

(** [bids.size()] at line 203, read through the reference [bids] that
    line 198 bound to the level at [price] of [m]: lines 219 and 220 erase
    that level once its queue is empty, and the next test of the loop
    reads the destroyed queue. *)
Definition level_ref (reads : Reads) (line : nat) (price : Price) (m : Levels)
    : res OrderPointers :=
  match PriceMap.at_ price m with
  | Ok orders => Ok orders
  | _ => dangling reads line []
  end.

(** A read at [line] through the reference [bid] or [ask] of lines 204
    and 205, which dangles once [pop_front] has destroyed its node. *)
Definition front_ref {A : Type} (reads : Reads) (popped : bool) (line : nat)
    (bound : A) : res A :=
  if popped then dangling reads line bound else Ok bound.

(** One iteration of the inner loop (lines 204-225).  [bid :: bids] and
    [ask :: asks] are the queues of the two levels on entry.  [pop_front]
    at line 212 destroys the node that the reference [bid] of line 204 is
    bound to, and lines 213 and 223 read through it; likewise [pop_front]
    at line 216 for [ask], read at lines 217 and 224. *)
Definition MatchFront (reads : Reads) (bid_price ask_price : Price)
    (bid : OrderPointer) (bids : OrderPointers)
    (ask : OrderPointer) (asks : OrderPointers) (b : t) : res (t * Trade.t) :=
  let quantity := N.min (Order.GetRemainingQuantity bid) (Order.GetRemainingQuantity ask) in
  bid ← Order.Fill quantity bid;
  ask ← Order.Fill quantity ask;
  let orders := write_through ask (write_through bid (orders_ b)) in
  let bid_popped := Order.IsFilled bid in
  '(bids, orders) ←
    (if bid_popped then
       order_id ← dangling reads 213 (Order.GetOrderId bid);
       mret (bids, delete order_id orders)
     else mret (bid :: bids, orders));
  let ask_popped := Order.IsFilled ask in
  '(asks, orders) ←
    (if ask_popped then
       order_id ← dangling reads 217 (Order.GetOrderId ask);
       mret (asks, delete order_id orders)
     else mret (ask :: asks, orders));
  bid_trade ← front_ref reads bid_popped 223
                (TradeInfo.mk (Order.GetOrderId bid) (Order.GetPrice bid) quantity);
  ask_trade ← front_ref reads ask_popped 224
                (TradeInfo.mk (Order.GetOrderId ask) (Order.GetPrice ask) quantity);
  mret (mk (PriceMap.store bid_price bids (bids_ b))
           (PriceMap.store ask_price asks (asks_ b))
           orders,
        Trade.mk bid_trade ask_trade).

(** The inner loop (line 203): [bids] and [asks] are references to the
    queues of the levels at [bid_price] and [ask_price]. *)
Fixpoint MatchLevels (reads : Reads) (fuel : nat) (bid_price ask_price : Price) (b : t)
    (trades : Trades) : res (t * Trades) :=
  match fuel with
  | O => OutOfFuel
  | S fuel =>
      bids ← level_ref reads 203 bid_price (bids_ b);
      match bids with
      | [] => Ok (b, trades)
      | bid :: bids =>
          asks ← level_ref reads 203 ask_price (asks_ b);
          match asks with
          | [] => Ok (b, trades)
          | ask :: asks =>
              '(b, trade) ← MatchFront reads bid_price ask_price bid bids ask asks b;
              MatchLevels reads fuel bid_price ask_price b (trades ++ [trade])
          end
      end
  end.

(** The outer loop (lines 195-227). *)
Fixpoint MatchLoop (reads : Reads) (fuel : nat) (b : t) (trades : Trades)
    : res (t * Trades) :=
  match fuel with
  | O => OutOfFuel
  | S fuel =>
      match bids_ b, asks_ b with
      | (bid_price, _) :: _, (ask_price, _) :: _ =>
          if bid_price <? ask_price then Ok (b, trades)
          else
            '(b, trades) ← MatchLevels reads (S fuel) bid_price ask_price b trades;
            MatchLoop reads fuel b trades
      | _, _ => Ok (b, trades)
      end
  end.

(** Lines 228-242: the two blocks after the loop.  Their only statement,
    the call of [CancelOrder], is commented out in the source, so both
    branches of both tests leave the book as it is. *)
Definition AfterLoop (b : t) : t :=
  let b :=
    match bids_ b with
    | (_, order :: _) :: _ =>
        if decide (Order.GetOrderType order = GoodTillCancel) then b else b
    | _ => b
    end in
  match asks_ b with
  | (_, order :: _) :: _ =>
      if decide (Order.GetOrderType order = FillAndKill) then b else b
  | _ => b
  end.

(** The orders queued on the two sides, the bids first. *)
Definition resting (b : t) : list Order.t :=
  concat (snd <$> bids_ b) ++ concat (snd <$> asks_ b).

(** Lines 191-244.  Every iteration of the inner loop fills and unlinks at
    least one order, so under [AsBuilt] the loops run at most once per
    queued order; the fuel given here is that bound (see
    [MatchLoop_steps]).  Under [Strict] no iteration completes. *)
Definition MatchOrders (reads : Reads) (b : t) : res (t * Trades) :=
  '(b, trades) ← MatchLoop reads (S (length (resting b))) b [];
  mret (AfterLoop b, trades).

(** [orders_.insert({id, entry})]: an existing key is left as it is. *)
Definition registry_insert (id : OrderId) (e : OrderEntry)
    (orders : gmap N OrderEntry) : gmap N OrderEntry :=
  match orders !! id with
  | Some _ => orders
  | None => <[id := e]> orders
  end.

(** Lines 246-271. *)
Definition AddOrder (reads : Reads) (order : OrderPointer) (b : t) : res (t * Trades) :=
  if decide (is_Some (orders_ b !! Order.GetOrderId order)) then Ok (b, [])
  else if bool_decide (Order.GetOrderType order = FillAndKill)
          && negb (CanMatch (Order.GetSide order) (Order.GetPrice order) b)
  then Ok (b, [])
  else
    let iterator := Order.GetOrderId order in
    let b :=
      match Order.GetSide order with
      | Buy => mk (PriceMap.push_back_at PriceMap.greater (Order.GetPrice order) order (bids_ b))
                  (asks_ b) (orders_ b)
      | Sell => mk (bids_ b)
                  (PriceMap.push_back_at PriceMap.less (Order.GetPrice order) order (asks_ b))
                  (orders_ b)
      end in
    let b := mk (bids_ b) (asks_ b)
               (registry_insert (Order.GetOrderId order) (mkEntry order iterator) (orders_ b)) in
    MatchOrders reads b.

(** Lines 273-292.  Line 277 erases the registry entry that the references
    [order] and [iterator] of line 276 are bound to; every later use of
    them reads the destroyed entry. *)
Definition CancelOrder (reads : Reads) (order_id : OrderId) (b : t) : res t :=
  match orders_ b !! order_id with
  | None => Ok b
  | Some (mkEntry order iterator) =>
      let registry := delete order_id (orders_ b) in
      side ← dangling reads 279 (Order.GetSide order);
      match side with
      | Sell =>
          price ← dangling reads 280 (Order.GetPrice order);
          orders ← PriceMap.at_ price (asks_ b);
          iterator ← dangling reads 282 iterator;
          let orders := list_erase iterator orders in
          mret (mk (bids_ b) (PriceMap.store price orders (asks_ b)) registry)
      | Buy =>
          price ← dangling reads 286 (Order.GetPrice order);
          orders ← PriceMap.at_ price (bids_ b);
          iterator ← dangling reads 288 iterator;
          let orders := list_erase iterator orders in
          mret (mk (PriceMap.store price orders (bids_ b)) (asks_ b) registry)
      end
  end.

(** Lines 294-300.  [existing_order] is bound at line 297 to the registry
    entry that the call of [CancelOrder] at line 298 destroys, together
    with the order itself; line 299 reads the type through it. *)
Definition MatchOrder (reads : Reads) (order : OrderModify.t) (b : t) : res (t * Trades) :=
  match orders_ b !! OrderModify.GetOrderId order with
  | None => Ok (b, [])
  | Some (mkEntry existing_order _) =>
      b ← CancelOrder reads (OrderModify.GetOrderId order) b;
      order_type ← dangling reads 299 (Order.GetOrderType existing_order);
      AddOrder reads (OrderModify.ToOrderPointer order order_type) b
  end.

(** Lines 302-317. *)
Definition CreateLevelInfos (price : Price) (orders : OrderPointers) : LevelInfo.t :=
  LevelInfo.mk price
    (fold_left (fun running_sum order =>
                  ((running_sum + Order.GetRemainingQuantity order) mod Quantity_modulus)%N)
               orders 0%N).

Definition GetOrderInfos (b : t) : OrderBookLevelInfos.t :=
  let bid_infos := (fun '(price, orders) => CreateLevelInfos price orders) <$> bids_ b in
  let ask_infos := (fun '(price, orders) => CreateLevelInfos price orders) <$> asks_ b in
  OrderBookLevelInfos.mk bid_infos ask_infos.

End OrderBook.

Import OrderBook.

(** ** Vocabulary of the properties *)

(** [o] after [quantity] has been taken from its remaining quantity. *)
Definition filled_by (quantity : Quantity) (o : Order.t) : Order.t :=
  Order.mk (Order.order_type_ o) (Order.order_id_ o) (Order.side_ o)
    (Order.initial_quantity_ o) (Order.remaining_quantity_ o - quantity)%N
    (Order.price_ o).

(** A queue after its front order [o] was filled by [quantity]: the order
    leaves the queue when nothing remains of it. *)
Definition front_after (quantity : Quantity) (o : Order.t) (rest : list Order.t)
    : list Order.t :=
  if (Order.remaining_quantity_ o =? quantity)%N then rest
  else filled_by quantity o :: rest.

(** The levels of one side once the queue of its best level became [orders]. *)
Definition requeue (price : Price) (orders : list Order.t)
    (rest : list (Z * list Order.t)) : list (Z * list Order.t) :=
  match orders with
  | [] => rest
  | _ => (price, orders) :: rest
  end.

(** A level of side [side]: a queue that is not empty and holds orders of
    that side at the price of the level. *)
Definition level_ok (side : Side) (lv : Z * list Order.t) : Prop :=
  lv.2 ≠ [] ∧
  Forall (fun o => Order.side_ o = side ∧ Order.price_ o = lv.1) lv.2.

(** The representation invariant of a book: both maps are ordered by their
    comparator, no level is empty, every queued order sits at its own side
    and price, identifiers are unique, and the registry holds exactly the
    queued orders. *)
Record consistent (b : OrderBook.t) : Prop := Consistent {
  bids_sorted : StronglySorted (fun p q => q < p) (bids_ b).*1;
  asks_sorted : StronglySorted (fun p q => p < q) (asks_ b).*1;
  bids_levels : Forall (level_ok Buy) (bids_ b);
  asks_levels : Forall (level_ok Sell) (asks_ b);
  ids_unique : NoDup (Order.order_id_ <$> resting b);
  resting_registered : forall o, o ∈ resting b ->
    orders_ b !! Order.order_id_ o = Some (mkEntry o (Order.order_id_ o));
  registered_resting : forall id e, orders_ b !! id = Some e ->
    order_ e ∈ resting b ∧ Order.order_id_ (order_ e) = id
}.

(** No cross: a side is empty or the best bid is below the best ask. *)
Definition uncrossed (b : OrderBook.t) : Prop :=
  match bids_ b, asks_ b with
  | (best_bid, _) :: _, (best_ask, _) :: _ => best_bid < best_ask
  | _, _ => True
  end.

(** The states in which a public call finds the book. *)
Definition wf (b : OrderBook.t) : Prop := consistent b ∧ uncrossed b.

(** The exact sum of the remaining quantities of a queue. *)
Definition total_remaining (orders : list Order.t) : N :=
  foldr (fun o acc => (Order.remaining_quantity_ o + acc)%N) 0%N orders.

(** The registry after one iteration of the inner loop on the front orders
    [bid] and [ask]. *)
Definition registry_after (bid ask : Order.t) (quantity : N)
    (orders : gmap N OrderEntry) : gmap N OrderEntry :=
  let bid' := filled_by quantity bid in
  let ask' := filled_by quantity ask in
  let orders := write_through ask' (write_through bid' orders) in
  let orders := if Order.IsFilled bid' then delete (Order.order_id_ bid) orders else orders in
  if Order.IsFilled ask' then delete (Order.order_id_ ask) orders else orders.

(** One iteration of the inner loop under [AsBuilt], as the loops reach
    it: both best levels have a front order and their prices cross. *)
Inductive step : OrderBook.t -> Trade.t -> OrderBook.t -> Prop :=
| step_front b bid_price bid bids rest_bids ask_price ask asks rest_asks b' trade :
    bids_ b = (bid_price, bid :: bids) :: rest_bids ->
    asks_ b = (ask_price, ask :: asks) :: rest_asks ->
    ask_price <= bid_price ->
    MatchFront AsBuilt bid_price ask_price bid bids ask asks b = Ok (b', trade) ->
    step b trade b'.

(** A run of iterations and the trades it appends, oldest first. *)
Inductive steps : OrderBook.t -> list Trade.t -> OrderBook.t -> Prop :=
| steps_nil b : steps b [] b
| steps_cons b trade b1 trades b2 :
    step b trade b1 -> steps b1 trades b2 -> steps b (trade :: trades) b2.

(** The book of [AddOrder] between the insertion (lines 256-268) and the
    call of the matching routine. *)
Definition inserted (order : Order.t) (b : OrderBook.t) : OrderBook.t :=
  OrderBook.mk
    (match Order.side_ order with
     | Buy => PriceMap.push_back_at PriceMap.greater (Order.price_ order) order (bids_ b)
     | Sell => bids_ b
     end)
    (match Order.side_ order with
     | Buy => asks_ b
     | Sell => PriceMap.push_back_at PriceMap.less (Order.price_ order) order (asks_ b)
     end)
    (registry_insert (Order.order_id_ order) (mkEntry order (Order.order_id_ order))
       (orders_ b)).

(** The price map of one side of the book. *)
Definition side_levels (side : Side) (b : OrderBook.t) : list (Z * list Order.t) :=
  match side with
  | Buy => bids_ b
  | Sell => asks_ b
  end.

Definition opposite (side : Side) : Side :=
  match side with
  | Buy => Sell
  | Sell => Buy
  end.

(** The order of the keys of the map of one side: [std::greater] for the
    bids, [std::less] for the asks. *)
Definition side_before (side : Side) (p q : Z) : Prop :=
  match side with
  | Buy => q < p
  | Sell => p < q
  end.

(** A reference bound to the level at [price] of a map: the level is the
    best one, or it was erased. *)
Definition front_or_gone (price : Z) (m : list (Z * list Order.t)) : Prop :=
  (exists queue rest, m = (price, queue) :: rest) ∨ price ∉ m.*1.

(** The registry [reg] holds exactly the orders of [l], whose identifiers
    are pairwise distinct. *)
Definition registered (l : list Order.t) (reg : gmap N OrderEntry) : Prop :=
  NoDup (Order.order_id_ <$> l) ∧
  (forall o, o ∈ l -> reg !! Order.order_id_ o = Some (mkEntry o (Order.order_id_ o))) ∧
  (forall id e, reg !! id = Some e -> order_ e ∈ l ∧ Order.order_id_ (order_ e) = id).

(** *** Histories of public calls *)

(** A call of the public interface.  [Add] stands for
    [AddOrder(std::make_shared<Order>(type, id, side, price, quantity))], the
    way the program itself builds the orders it submits. *)
Inductive op :=
| Add (order_type : OrderType) (order_id : OrderId) (side : Side)
      (price : Price) (quantity : Quantity)
| Cancel (order_id : OrderId)
| Modify (order : OrderModify.t).

Definition exec (reads : Reads) (o : op) (b : OrderBook.t)
    : res (OrderBook.t * list Trade.t) :=
  match o with
  | Add order_type order_id side price quantity =>
      AddOrder reads (Order.new order_type order_id side price quantity) b
  | Cancel order_id => b ← CancelOrder reads order_id b; mret (b, [])
  | Modify order => MatchOrder reads order b
  end.

(** A sequence of calls, with all the trades it returned, oldest first. *)
Fixpoint run (reads : Reads) (ops : list op) (b : OrderBook.t)
    : res (OrderBook.t * list Trade.t) :=
  match ops with
  | [] => Ok (b, [])
  | o :: ops =>
      '(b, first) ← exec reads o b;
      '(b, others) ← run reads ops b;
      mret (b, first ++ others)
  end.

(** The books between two public calls, for a sequence of calls that all
    returned under the reading [reads] of the dangling reads. *)
Definition reachable (reads : Reads) (b : OrderBook.t) : Prop :=
  exists ops trades, run reads ops OrderBook.empty = Ok (b, trades).

(** *** The depth query, read with exact sums *)

Definition exact_level (lv : Z * list Order.t) : LevelInfo.t :=
  LevelInfo.mk lv.1 (total_remaining lv.2).

(** The depth of a book when the quantity of a level is the sum of the
    remaining quantities of its orders. *)
Definition depth_exact (b : OrderBook.t) : Prop :=
  GetOrderInfos b =
    OrderBookLevelInfos.mk (exact_level <$> bids_ b) (exact_level <$> asks_ b).

(** The quantity of a level as a [Quantity] holds it. *)
Definition wrapped_level (lv : Z * list Order.t) : LevelInfo.t :=
  LevelInfo.mk lv.1 (total_remaining lv.2 mod Quantity_modulus)%N.

(** *** Books and orders of the examples *)

Definition sell_4 : Order.t := Order.new GoodTillCancel 1 Sell 100 4.
Definition fak_buy_10 : Order.t := Order.new FillAndKill 2 Buy 100 10.

(** The book after [sell_4] was added to the empty book. *)
Definition book_sell_4 : OrderBook.t :=
  OrderBook.mk [] [(100, [sell_4])] {[ 1%N := mkEntry sell_4 1 ]}.

(** The book after [fak_buy_10] was added to [book_sell_4], the call read
    [AsBuilt]. *)
Definition book_fak_rests : OrderBook.t :=
  OrderBook.mk [(100, [filled_by 4 fak_buy_10])] []
    {[ 2%N := mkEntry (filled_by 4 fak_buy_10) 2 ]}.

(** [book_sell_4] with [fak_buy_10] inserted and not yet matched. *)
Definition book_crossing : OrderBook.t := inserted fak_buy_10 book_sell_4.

Definition buy_a : Order.t := Order.new GoodTillCancel 1 Buy 100 5.
Definition buy_b : Order.t := Order.new GoodTillCancel 2 Buy 100 7.

(** The book after [buy_a] and then [buy_b] were added to the empty book. *)
Definition book_two_buys : OrderBook.t :=
  OrderBook.mk [(100, [buy_a; buy_b])] []
    (<[ 2%N := mkEntry buy_b 2 ]> {[ 1%N := mkEntry buy_a 1 ]}).

Definition big_buy_1 : Order.t := Order.new GoodTillCancel 1 Buy 100 2147483648.
Definition big_buy_2 : Order.t := Order.new GoodTillCancel 2 Buy 100 2147483648.

(** The book after [big_buy_1] and [big_buy_2] were added to the empty book. *)
Definition book_big : OrderBook.t :=
  OrderBook.mk [(100, [big_buy_1; big_buy_2])] []
    (<[ 2%N := mkEntry big_buy_2 2 ]> {[ 1%N := mkEntry big_buy_1 1 ]}).

Definition buy_low : Order.t := Order.new GoodTillCancel 2 Buy 99 7.

(** The book after [buy_a] and then [buy_low] were added to the empty
    book: two bid levels. *)
Definition book_two_levels : OrderBook.t :=
  OrderBook.mk [(100, [buy_a]); (99, [buy_low])] []
    (<[ 2%N := mkEntry buy_low 2 ]> {[ 1%N := mkEntry buy_a 1 ]}).

(** *** Sequences of fills *)

(** Successive calls of [Order::Fill] on one order. *)
Fixpoint Fills (quantities : list Quantity) (o : Order.t) : res Order.t :=
  match quantities with
  | [] => Ok o
  | quantity :: quantities => o ← Order.Fill quantity o; Fills quantities o
  end.

Definition total (quantities : list N) : N := foldr N.add 0%N quantities.

Arguments PriceMap.store : simpl never.
Arguments requeue : simpl never.

(** ** The result monad *)

Lemma bind_Ok {A B} (m : res A) (f : A -> res B) (r : B) :
  m ≫= f = Ok r -> exists a, m = Ok a ∧ f a = Ok r.
Proof. destruct m as [a| | |line]; simpl; intros H; try discriminate. by exists a. Qed.

(** ** [Order::Fill] *)

Lemma Fill_Ok (quantity : N) (o : Order.t) :
  (quantity <= Order.remaining_quantity_ o)%N ->
  Order.Fill quantity o = Ok (filled_by quantity o).
Proof.
  intros Hle. unfold Order.Fill, Order.GetRemainingQuantity.
  destruct (N.ltb_spec (Order.remaining_quantity_ o) quantity); [lia | done].
Qed.

Lemma Fill_Throw (quantity : N) (o : Order.t) :
  (Order.remaining_quantity_ o < quantity)%N ->
  Order.Fill quantity o = Throw logic_error.
Proof.
  intros Hlt. unfold Order.Fill, Order.GetRemainingQuantity.
  destruct (N.ltb_spec (Order.remaining_quantity_ o) quantity); [done | lia].
Qed.

Lemma IsFilled_filled_by (quantity : N) (o : Order.t) :
  (quantity <= Order.remaining_quantity_ o)%N ->
  Order.IsFilled (filled_by quantity o) = (Order.remaining_quantity_ o =? quantity)%N.
Proof.
  intros Hle. unfold Order.IsFilled, Order.GetRemainingQuantity; simpl.
  destruct (N.eqb_spec (Order.remaining_quantity_ o) quantity) as [->|Hne].
  - by rewrite N.sub_diag.
  - apply N.eqb_neq. lia.
Qed.

(** ** The price maps at their best level *)

Lemma store_head (price : Z) (orders old : list Order.t) (rest : list (Z * list Order.t)) :
  PriceMap.store price orders ((price, old) :: rest) = requeue price orders rest.
Proof. unfold PriceMap.store. destruct orders; simpl; by rewrite Z.eqb_refl. Qed.

Lemma level_head (price : Z) (orders : list Order.t) (rest : list (Z * list Order.t)) :
  PriceMap.level price ((price, orders) :: rest) = orders.
Proof. unfold PriceMap.level; simpl. by rewrite Z.eqb_refl. Qed.

Lemma concat_requeue (price : Z) (orders : list Order.t) (rest : list (Z * list Order.t)) :
  concat (requeue price orders rest).*2 = orders ++ concat rest.*2.
Proof. by destruct orders. Qed.

(** ** One iteration of the inner loop under [AsBuilt], in closed form *)

Lemma MatchFront_Ok bid_price ask_price bid bids ask asks b :
  let quantity := N.min (Order.remaining_quantity_ bid) (Order.remaining_quantity_ ask) in
  MatchFront AsBuilt bid_price ask_price bid bids ask asks b =
    Ok (OrderBook.mk
          (PriceMap.store bid_price (front_after quantity bid bids) (bids_ b))
          (PriceMap.store ask_price (front_after quantity ask asks) (asks_ b))
          (registry_after bid ask quantity (orders_ b)),
        Trade.mk
          (TradeInfo.mk (Order.order_id_ bid) (Order.price_ bid) quantity)
          (TradeInfo.mk (Order.order_id_ ask) (Order.price_ ask) quantity)).
Proof.
  intros quantity. unfold MatchFront, Order.GetRemainingQuantity.
  fold quantity.
  rewrite (Fill_Ok quantity bid) by (unfold quantity; lia).
  rewrite (Fill_Ok quantity ask) by (unfold quantity; lia).
  simpl. unfold registry_after, front_after.
  rewrite !IsFilled_filled_by by (unfold quantity; lia).
  by destruct (_ =? _)%N, (_ =? _)%N.
Qed.

Lemma MatchFront_eq bid_price ask_price bid bids ask asks rest_bids rest_asks b :
  bids_ b = (bid_price, bid :: bids) :: rest_bids ->
  asks_ b = (ask_price, ask :: asks) :: rest_asks ->
  let quantity := N.min (Order.remaining_quantity_ bid) (Order.remaining_quantity_ ask) in
  MatchFront AsBuilt bid_price ask_price bid bids ask asks b =
    Ok (OrderBook.mk
          (requeue bid_price (front_after quantity bid bids) rest_bids)
          (requeue ask_price (front_after quantity ask asks) rest_asks)
          (registry_after bid ask quantity (orders_ b)),
        Trade.mk
          (TradeInfo.mk (Order.order_id_ bid) (Order.price_ bid) quantity)
          (TradeInfo.mk (Order.order_id_ ask) (Order.price_ ask) quantity)).
Proof.
  intros Hb Ha quantity. rewrite MatchFront_Ok. fold quantity.
  by rewrite Hb, Ha, !store_head.
Qed.

(** ** The invariant along the matching loop under [AsBuilt] *)

Lemma lookup_registry_after bid ask quantity (orders : gmap N OrderEntry) id :
  Order.order_id_ bid ≠ Order.order_id_ ask ->
  (quantity <= Order.remaining_quantity_ bid)%N ->
  (quantity <= Order.remaining_quantity_ ask)%N ->
  registry_after bid ask quantity orders !! id =
    if decide (id = Order.order_id_ bid) then
      if (Order.remaining_quantity_ bid =? quantity)%N then None
      else (fun e => mkEntry (filled_by quantity bid) (location_ e)) <$> orders !! id
    else if decide (id = Order.order_id_ ask) then
      if (Order.remaining_quantity_ ask =? quantity)%N then None
      else (fun e => mkEntry (filled_by quantity ask) (location_ e)) <$> orders !! id
    else orders !! id.
Proof.
  intros Hne Hb Ha. unfold registry_after, write_through, Order.GetOrderId.
  rewrite !IsFilled_filled_by by done. simpl.
  destruct (decide (id = Order.order_id_ bid)) as [->|Hb'];
    [|destruct (decide (id = Order.order_id_ ask)) as [->|Ha']];
    destruct (_ =? _)%N, (_ =? _)%N;
    rewrite ?lookup_delete_eq, ?(lookup_delete_ne _ (Order.order_id_ ask)) by done;
    rewrite ?lookup_delete_eq, ?(lookup_delete_ne _ (Order.order_id_ bid)) by done;
    rewrite ?lookup_alter_eq, ?(lookup_alter_ne _ _ (Order.order_id_ ask)) by done;
    rewrite ?lookup_alter_eq, ?(lookup_alter_ne _ _ (Order.order_id_ bid)) by done;
    done.
Qed.

Lemma elem_of_front_after quantity o rest x :
  x ∈ front_after quantity o rest <->
  (Order.remaining_quantity_ o ≠ quantity ∧ x = filled_by quantity o) ∨ x ∈ rest.
Proof.
  unfold front_after.
  destruct (N.eqb_spec (Order.remaining_quantity_ o) quantity).
  - tauto.
  - rewrite elem_of_cons. tauto.
Qed.

Lemma front_after_ids quantity o rest :
  (Order.order_id_ <$> front_after quantity o rest) `sublist_of`
  (Order.order_id_ <$> o :: rest).
Proof.
  unfold front_after. destruct (_ =? _)%N; simpl.
  - by apply sublist_cons.
  - done.
Qed.

Lemma front_after_length quantity o rest :
  length (front_after quantity o rest) =
    if (Order.remaining_quantity_ o =? quantity)%N then length rest
    else S (length rest).
Proof. unfold front_after. by destruct (_ =? _)%N. Qed.

Lemma requeue_keys_sorted (R : Z -> Z -> Prop) price orders old rest :
  StronglySorted R ((price, old) :: rest).*1 ->
  StronglySorted R (requeue price orders rest).*1.
Proof.
  intros Hs. unfold requeue. destruct orders; [|done].
  by apply StronglySorted_inv in Hs as [? _].
Qed.

Lemma front_after_level_ok side quantity price o rest tail :
  Forall (level_ok side) ((price, o :: rest) :: tail) ->
  Forall (level_ok side) (requeue price (front_after quantity o rest) tail).
Proof.
  intros Hl. apply Forall_cons in Hl as [[_ Hq] Ht]. simpl in Hq.
  apply Forall_cons in Hq as [Ho Hq].
  unfold requeue. destruct (front_after quantity o rest) as [|x l] eqn:E; [done|].
  apply Forall_cons. split; [|done]. split; [done|]. simpl. rewrite <- E.
  unfold front_after. destruct (_ =? _)%N; [done|].
  apply Forall_cons. split; [|done]. done.
Qed.

Lemma resting_eq b bid_price bid_queue rest_bids ask_price ask_queue rest_asks :
  bids_ b = (bid_price, bid_queue) :: rest_bids ->
  asks_ b = (ask_price, ask_queue) :: rest_asks ->
  resting b = (bid_queue ++ concat rest_bids.*2) ++ (ask_queue ++ concat rest_asks.*2).
Proof. intros Hb Ha. unfold resting. by rewrite Hb, Ha. Qed.

(** The book after one iteration of the inner loop on a consistent book. *)
Lemma consistent_MatchFront b bid_price bid bids rest_bids ask_price ask asks rest_asks b' trade :
  consistent b ->
  bids_ b = (bid_price, bid :: bids) :: rest_bids ->
  asks_ b = (ask_price, ask :: asks) :: rest_asks ->
  MatchFront AsBuilt bid_price ask_price bid bids ask asks b = Ok (b', trade) ->
  consistent b' ∧ (length (resting b') < length (resting b))%nat.
Proof.
  intros Hc Hb Ha. rewrite (MatchFront_eq _ _ _ _ _ _ _ _ _ Hb Ha).
  set (quantity := N.min _ _). intros [= <- _].
  assert (Hqb : (quantity <= Order.remaining_quantity_ bid)%N) by (unfold quantity; lia).
  assert (Hqa : (quantity <= Order.remaining_quantity_ ask)%N) by (unfold quantity; lia).
  pose proof (resting_eq _ _ _ _ _ _ _ Hb Ha) as Hr.
  destruct Hc as [Hsb Hsa Hlb Hla Hnd Hreg Hrest].
  rewrite Hr in Hnd, Hreg, Hrest.
  assert (Hne : Order.order_id_ bid ≠ Order.order_id_ ask).
  { intros Heq. rewrite fmap_app in Hnd. apply NoDup_app in Hnd as (_ & Hd & _).
    apply (Hd (Order.order_id_ bid)); simpl; [left|rewrite Heq; left]. }
  assert (Hr' : resting (OrderBook.mk
            (requeue bid_price (front_after quantity bid bids) rest_bids)
            (requeue ask_price (front_after quantity ask asks) rest_asks)
            (registry_after bid ask quantity (orders_ b))) =
          (front_after quantity bid bids ++ concat rest_bids.*2) ++
          (front_after quantity ask asks ++ concat rest_asks.*2)).
  { unfold resting; simpl. by rewrite !concat_requeue. }
  (* identifiers of the orders that stay behind the two fronts *)
  assert (Hother : forall x, x ∈ (bids ++ concat rest_bids.*2) ++ (asks ++ concat rest_asks.*2) ->
            Order.order_id_ x ≠ Order.order_id_ bid ∧ Order.order_id_ x ≠ Order.order_id_ ask).
  { intros x Hx. rewrite fmap_app in Hnd.
    apply NoDup_app in Hnd as (Hd1 & Hd & Hd2).
    simpl in Hd1, Hd2.
    apply NoDup_cons in Hd1 as [Hb1 _]. apply NoDup_cons in Hd2 as [Ha2 _].
    apply elem_of_app in Hx as [Hx|Hx].
    - split.
      + intros Heq. apply Hb1. rewrite <- Heq. by apply list_elem_of_fmap_2.
      + intros Heq. apply (Hd (Order.order_id_ x)).
        * right. by apply list_elem_of_fmap_2.
        * rewrite Heq. left.
    - split.
      + intros Heq. apply (Hd (Order.order_id_ bid)); [left|].
        rewrite <- Heq. right. by apply list_elem_of_fmap_2.
      + intros Heq. apply Ha2. rewrite <- Heq. by apply list_elem_of_fmap_2. }
  split.
  - split; simpl.
    + rewrite Hb in Hsb. by eapply requeue_keys_sorted.
    + rewrite Ha in Hsa. by eapply requeue_keys_sorted.
    + rewrite Hb in Hlb. by apply front_after_level_ok.
    + rewrite Ha in Hla. by apply front_after_level_ok.
    + rewrite Hr'. eapply sublist_NoDup; [exact Hnd|].
      rewrite !fmap_app. apply sublist_app; apply sublist_app; try done;
        apply front_after_ids.
    + intros o. rewrite Hr'. simpl.
      rewrite lookup_registry_after by done.
      intros Ho.
      assert (Hcase : (Order.remaining_quantity_ bid ≠ quantity ∧ o = filled_by quantity bid) ∨
                      (Order.remaining_quantity_ ask ≠ quantity ∧ o = filled_by quantity ask) ∨
                      o ∈ (bids ++ concat rest_bids.*2) ++ (asks ++ concat rest_asks.*2)).
      { clear -Ho. rewrite !elem_of_app, !elem_of_front_after in Ho.
        rewrite !elem_of_app. tauto. }
      clear Ho. destruct Hcase as [[Hq ->]|[[Hq ->]|Ho]].
      * simpl. rewrite decide_True by done.
        apply N.eqb_neq in Hq. rewrite Hq.
        rewrite (Hreg bid) by (apply elem_of_app; left; left). done.
      * simpl. rewrite decide_False by done. rewrite decide_True by done.
        apply N.eqb_neq in Hq. rewrite Hq.
        rewrite (Hreg ask) by (apply elem_of_app; right; left). done.
      * destruct (Hother _ Ho) as [H1 H2].
        rewrite decide_False by done. rewrite decide_False by done.
        apply Hreg. clear -Ho. rewrite !elem_of_app in Ho.
        rewrite !elem_of_app, !elem_of_cons. tauto.
    + intros id e. rewrite Hr'. simpl.
      rewrite lookup_registry_after by done.
      rewrite !elem_of_app, !elem_of_front_after.
      destruct (decide (id = Order.order_id_ bid)) as [->|Hb'];
        [|destruct (decide (id = Order.order_id_ ask)) as [->|Ha']].
      * destruct (N.eqb_spec (Order.remaining_quantity_ bid) quantity); [done|].
        rewrite (Hreg bid) by (apply elem_of_app; left; left). simpl.
        intros [= <-]. simpl. split; [|done]. left. left. left. done.
      * destruct (N.eqb_spec (Order.remaining_quantity_ ask) quantity); [done|].
        rewrite (Hreg ask) by (apply elem_of_app; right; left). simpl.
        intros [= <-]. simpl. split; [|done]. right. left. left. done.
      * intros He. destruct (Hrest _ _ He) as [Hin Hid]. split; [|done].
        clear -Hin Hid Hb' Ha'.
        rewrite !elem_of_app, !elem_of_cons in Hin.
        destruct Hin as [[[Heq|?]|?]|[[Heq|?]|?]];
          try (rewrite Heq in Hid; congruence); tauto.
  - rewrite Hr', Hr. rewrite !length_app, !front_after_length. simpl.
    rewrite ?length_app.
    destruct (N.eqb_spec (Order.remaining_quantity_ bid) quantity),
             (N.eqb_spec (Order.remaining_quantity_ ask) quantity); lia.
Qed.

Lemma consistent_step b trade b' :
  consistent b -> step b trade b' ->
  consistent b' ∧ (length (resting b') < length (resting b))%nat.
Proof. intros Hc Hs. destruct Hs. by eapply consistent_MatchFront. Qed.

Lemma consistent_steps b trades b' :
  consistent b -> steps b trades b' ->
  consistent b' ∧ (length (resting b') + length trades <= length (resting b))%nat.
Proof.
  intros Hc Hs. induction Hs as [b|b trade b1 trades b2 H1 _ IH].
  - split; [done|simpl; lia].
  - destruct (consistent_step _ _ _ Hc H1) as [Hc1 Hlt].
    destruct (IH Hc1) as [Hc2 Hle]. split; [done|simpl; lia].
Qed.

Lemma steps_app b1 t1 b2 t2 b3 :
  steps b1 t1 b2 -> steps b2 t2 b3 -> steps b1 (t1 ++ t2) b3.
Proof.
  induction 1 as [|b trade b1 trades b2 H1 _ IH]; [done|].
  intros H2. simpl. eapply steps_cons; [done|]. by apply IH.
Qed.

(** ** Termination and result of the two loops under [AsBuilt] *)

Lemma level_gone price (m : list (Z * list Order.t)) :
  price ∉ m.*1 -> PriceMap.level price m = [].
Proof.
  unfold PriceMap.level. induction m as [|[p q] m IH]; [done|].
  intros Hn. simpl. rewrite fmap_cons, not_elem_of_cons in Hn. destruct Hn as [Hp Hm].
  simpl in Hp. destruct (Z.eqb_spec p price); [congruence|]. by apply IH.
Qed.

Lemma sorted_head_fresh (R : Z -> Z -> Prop) price old (rest : list (Z * list Order.t)) :
  (forall x, ¬ R x x) ->
  StronglySorted R ((price, old) :: rest).*1 -> price ∉ rest.*1.
Proof.
  intros Hirr Hs Hin. rewrite fmap_cons in Hs.
  apply StronglySorted_inv in Hs as [_ Hall].
  rewrite Forall_forall in Hall. by apply (Hirr price), Hall.
Qed.

Lemma requeue_front_or_gone (R : Z -> Z -> Prop) price orders old rest :
  (forall x, ¬ R x x) ->
  StronglySorted R ((price, old) :: rest).*1 ->
  front_or_gone price (requeue price orders rest).
Proof.
  intros Hirr Hs. unfold requeue. destruct orders.
  - right. by eapply sorted_head_fresh.
  - left. eauto.
Qed.

Lemma front_or_gone_level price m x l :
  front_or_gone price m -> PriceMap.level price m = x :: l ->
  exists rest, m = (price, x :: l) :: rest.
Proof.
  intros [(q & rest & ->)|Hg] Hl.
  - rewrite level_head in Hl. subst. eauto.
  - by rewrite level_gone in Hl.
Qed.

Lemma level_ref_AsBuilt line price m :
  level_ref AsBuilt line price m = Ok (PriceMap.level price m).
Proof. unfold level_ref, PriceMap.level. by destruct (PriceMap.at_ price m). Qed.

(** Under [AsBuilt] the inner loop tests the queues as they are, an erased
    level counting as an empty queue. *)
Lemma MatchLevels_AsBuilt fuel bid_price ask_price b trades :
  MatchLevels AsBuilt (S fuel) bid_price ask_price b trades =
    match PriceMap.level bid_price (bids_ b), PriceMap.level ask_price (asks_ b) with
    | bid :: bids, ask :: asks =>
        '(b, trade) ← MatchFront AsBuilt bid_price ask_price bid bids ask asks b;
        MatchLevels AsBuilt fuel bid_price ask_price b (trades ++ [trade])
    | _, _ => Ok (b, trades)
    end.
Proof.
  cbn [MatchLevels]. rewrite !level_ref_AsBuilt. simpl.
  by destruct (PriceMap.level bid_price (bids_ b)), (PriceMap.level ask_price (asks_ b)).
Qed.

Lemma MatchLevels_steps fuel : forall bid_price ask_price b trades,
  consistent b -> ask_price <= bid_price ->
  front_or_gone bid_price (bids_ b) -> front_or_gone ask_price (asks_ b) ->
  (length (resting b) < fuel)%nat ->
  exists b' new,
    MatchLevels AsBuilt fuel bid_price ask_price b trades = Ok (b', trades ++ new) ∧
    steps b new b' ∧
    (PriceMap.level bid_price (bids_ b') = [] ∨ PriceMap.level ask_price (asks_ b') = []).
Proof.
  induction fuel as [|fuel IH]; intros bid_price ask_price b trades Hc Hx Hfb Hfa Hlen; [lia|].
  rewrite MatchLevels_AsBuilt.
  destruct (PriceMap.level bid_price (bids_ b)) as [|bid bids] eqn:Eb.
  { exists b, []. rewrite app_nil_r. split_and!; [done|constructor|by left]. }
  destruct (PriceMap.level ask_price (asks_ b)) as [|ask asks] eqn:Ea.
  { exists b, []. rewrite app_nil_r. split_and!; [done|constructor|by right]. }
  destruct (front_or_gone_level _ _ _ _ Hfb Eb) as [rest_bids Hb].
  destruct (front_or_gone_level _ _ _ _ Hfa Ea) as [rest_asks Ha].
  pose proof (MatchFront_eq _ _ _ _ _ _ _ _ _ Hb Ha) as Hm. simpl in Hm.
  rewrite Hm. simpl.
  match type of Hm with _ = Ok (?x, ?t) => set (b1 := x) in *; set (trade := t) in * end.
  destruct (consistent_MatchFront _ _ _ _ _ _ _ _ _ _ _ Hc Hb Ha Hm) as [Hc1 Hlt].
  destruct (IH bid_price ask_price b1 (trades ++ [trade])) as (b' & new & Hrun & Hst & Hex);
    [done|done| | |lia|].
  - unfold b1; simpl. eapply (requeue_front_or_gone (fun p q => q < p)); [intros x; lia|].
    rewrite <- Hb. apply Hc.
  - unfold b1; simpl. eapply (requeue_front_or_gone (fun p q => p < q)); [intros x; lia|].
    rewrite <- Ha. apply Hc.
  - exists b', (trade :: new). split_and!; [|  |done].
    + rewrite Hrun. by rewrite <- app_assoc.
    + eapply steps_cons; [|done]. by eapply step_front.
Qed.

Lemma AfterLoop_id b : AfterLoop b = b.
Proof.
  unfold AfterLoop.
  destruct (bids_ b) as [|[? [|? ?]] ?]; try case_decide;
    destruct (asks_ b) as [|[? [|? ?]] ?]; try case_decide; done.
Qed.

Lemma MatchLoop_steps fuel : forall b trades,
  consistent b -> (length (resting b) < fuel)%nat ->
  exists b' new,
    MatchLoop AsBuilt fuel b trades = Ok (b', trades ++ new) ∧ steps b new b' ∧ uncrossed b'.
Proof.
  induction fuel as [|fuel IH]; intros b trades Hc Hlen; [lia|].
  cbn [MatchLoop]. unfold uncrossed.
  destruct (bids_ b) as [|[bid_price bid_queue] rest_bids] eqn:Hb.
  { exists b, []. rewrite app_nil_r, Hb. split_and!; [done|constructor|done]. }
  destruct (asks_ b) as [|[ask_price ask_queue] rest_asks] eqn:Ha.
  { exists b, []. rewrite app_nil_r, Hb, Ha. split_and!; [done|constructor|done]. }
  destruct (Z.ltb_spec bid_price ask_price) as [Hlt|Hge].
  { exists b, []. rewrite app_nil_r, Hb, Ha. split_and!; [done|constructor|done]. }
  destruct (MatchLevels_steps (S fuel) bid_price ask_price b trades)
    as (b1 & new1 & Hrun & Hst & Hex); [done|done| | |done|].
  { left. eauto. }
  { left. eauto. }
  rewrite Hrun. simpl.
  destruct (consistent_steps _ _ _ Hc Hst) as [Hc1 Hle].
  assert (Hnew : new1 ≠ []).
  { intros ->. inversion Hst; subst.
    rewrite Hb, Ha, !level_head in Hex.
    pose proof (bids_levels _ Hc) as Hlb. pose proof (asks_levels _ Hc) as Hla.
    rewrite Hb in Hlb. rewrite Ha in Hla.
    apply Forall_cons in Hlb as [[Hnb _] _]. apply Forall_cons in Hla as [[Hna _] _].
    simpl in *. by destruct Hex. }
  destruct (IH b1 (trades ++ new1)) as (b' & new & Hrun' & Hst' & Hun); [done| |].
  { destruct new1; [done|]. simpl in Hle. lia. }
  exists b', (new1 ++ new). split_and!; [| |done].
  - rewrite Hrun'. by rewrite <- app_assoc.
  - by eapply steps_app.
Qed.

(** On a consistent book the matching routine returns: it runs a sequence
    of crossing iterations and stops on a book without cross. *)
Lemma MatchOrders_steps b :
  consistent b ->
  exists b' trades,
    MatchOrders AsBuilt b = Ok (b', trades) ∧ steps b trades b' ∧ consistent b' ∧ uncrossed b'.
Proof.
  intros Hc. unfold MatchOrders.
  destruct (MatchLoop_steps (S (length (resting b))) b [] Hc) as (b' & new & Hrun & Hst & Hun);
    [lia|].
  exists b', new. rewrite Hrun. simpl. rewrite AfterLoop_id.
  split_and!; try done. by apply (consistent_steps _ _ _ Hc Hst).
Qed.

(** ** The registry against the queued orders *)

Lemma consistent_registered b : consistent b -> registered (resting b) (orders_ b).
Proof. intros [? ? ? ? ? ? ?]. by split_and!. Qed.

Lemma registered_perm l l' reg : l ≡ₚ l' -> registered l reg -> registered l' reg.
Proof.
  intros Hp (Hnd & Hin & Hout). split_and!.
  - by rewrite <- Hp.
  - intros o Ho. apply Hin. by rewrite Hp.
  - intros id e He. destruct (Hout id e He) as [H1 H2]. split; [|done]. by rewrite <- Hp.
Qed.

Lemma registered_fresh l reg o :
  registered l reg -> reg !! Order.order_id_ o = None ->
  Order.order_id_ o ∉ Order.order_id_ <$> l.
Proof.
  intros (_ & Hin & _) Hnone Hel.
  apply list_elem_of_fmap in Hel as (x & Hid & Hx).
  specialize (Hin x Hx). rewrite <- Hid in Hin. congruence.
Qed.

Lemma registered_insert l reg o :
  registered l reg -> reg !! Order.order_id_ o = None ->
  registered (o :: l)
    (registry_insert (Order.order_id_ o) (mkEntry o (Order.order_id_ o)) reg).
Proof.
  intros Hr Hnone. pose proof (registered_fresh _ _ _ Hr Hnone) as Hfresh.
  destruct Hr as (Hnd & Hin & Hout).
  unfold registry_insert. rewrite Hnone. split_and!.
  - rewrite fmap_cons. by apply NoDup_cons.
  - intros x Hx. apply elem_of_cons in Hx as [->|Hx].
    + by rewrite lookup_insert_eq.
    + rewrite lookup_insert_ne; [by apply Hin|].
      intros Heq. apply Hfresh. rewrite Heq. by apply list_elem_of_fmap_2.
  - intros id e. destruct (decide (Order.order_id_ o = id)) as [<-|Hne].
    + rewrite lookup_insert_eq. intros [= <-]. simpl. split; [left|done].
    + rewrite lookup_insert_ne by done. intros He.
      destruct (Hout id e He). split; [by right|done].
Qed.

Lemma registered_delete l reg o :
  registered (o :: l) reg -> registered l (delete (Order.order_id_ o) reg).
Proof.
  intros (Hnd & Hin & Hout). rewrite fmap_cons in Hnd.
  apply NoDup_cons in Hnd as [Hfresh Hnd]. split_and!.
  - done.
  - intros x Hx. rewrite lookup_delete_ne; [apply Hin; by right|].
    intros Heq. apply Hfresh. rewrite Heq. by apply list_elem_of_fmap_2.
  - intros id e. destruct (decide (Order.order_id_ o = id)) as [<-|Hne].
    + by rewrite lookup_delete_eq.
    + rewrite lookup_delete_ne by done. intros He.
      destruct (Hout id e He) as [Hel Hid]. split; [|done].
      apply elem_of_cons in Hel as [Heq|Hel]; [|done]. congruence.
Qed.

(** ** The price maps at any level *)

Section price_map.
Variable before : Z -> Z -> bool.
Variable R : Z -> Z -> Prop.
Hypothesis before_spec : forall a b, before a b = true <-> R a b.
Hypothesis R_irrefl : forall a, ¬ R a a.
Hypothesis R_trans : forall a b c, R a b -> R b c -> R a c.
Hypothesis R_total : forall a b, a ≠ b -> ¬ R a b -> R b a.

Lemma push_back_at_keys price o (m : list (Z * list Order.t)) x :
  x ∈ (PriceMap.push_back_at before price o m).*1 -> x = price ∨ x ∈ m.*1.
Proof.
  induction m as [|[p q] m IH]; simpl.
  - rewrite list_elem_of_singleton. tauto.
  - destruct (Z.eqb_spec p price) as [->|Hne]; [simpl; tauto|].
    destruct (before price p); simpl.
    + rewrite !elem_of_cons. simpl. tauto.
    + rewrite !elem_of_cons. simpl. tauto.
Qed.

Lemma sorted_fresh price (m : list (Z * list Order.t)) p :
  R price p -> StronglySorted R (p :: m.*1) -> price ∉ p :: m.*1.
Proof.
  intros Hp Hs. apply StronglySorted_inv in Hs as [_ Hall].
  rewrite Forall_forall in Hall. rewrite not_elem_of_cons. split.
  - intros ->. by apply (R_irrefl p).
  - intros Hin. apply (R_irrefl price). eapply R_trans; [exact Hp|by apply Hall].
Qed.

Lemma push_back_at_sorted price o (m : list (Z * list Order.t)) :
  StronglySorted R m.*1 ->
  StronglySorted R (PriceMap.push_back_at before price o m).*1.
Proof.
  induction m as [|[p q] m IH]; simpl; intros Hs.
  - repeat constructor.
  - destruct (Z.eqb_spec p price) as [->|Hne]; [done|].
    destruct (before price p) eqn:Hb; simpl.
    + apply before_spec in Hb. constructor; [done|].
      apply StronglySorted_inv in Hs as [_ Hall].
      constructor; [done|]. eapply Forall_impl; [exact Hall|].
      intros x Hx. by eapply R_trans.
    + assert (Hp : R p price).
      { apply R_total; [done|]. intros Hr. apply before_spec in Hr. congruence. }
      apply StronglySorted_inv in Hs as [Hs Hall]. constructor; [by apply IH|].
      rewrite Forall_forall in Hall |- *. intros x Hx.
      apply push_back_at_keys in Hx as [->|Hx]; [done|by apply Hall].
Qed.

Lemma push_back_at_perm price o (m : list (Z * list Order.t)) :
  concat (PriceMap.push_back_at before price o m).*2 ≡ₚ o :: concat m.*2.
Proof.
  induction m as [|[p q] m IH]; simpl; [done|].
  destruct (p =? price); [|destruct (before price p)]; simpl.
  - rewrite <- app_assoc. simpl. by rewrite <- Permutation_middle.
  - done.
  - rewrite IH. by rewrite <- Permutation_middle.
Qed.

Lemma push_back_at_level_ok side price o (m : list (Z * list Order.t)) :
  Order.side_ o = side -> Order.price_ o = price ->
  Forall (level_ok side) m ->
  Forall (level_ok side) (PriceMap.push_back_at before price o m).
Proof.
  intros Hside Hprice. induction m as [|[p q] m IH]; simpl; intros Hall.
  - repeat constructor; done.
  - apply Forall_cons in Hall as [[Hne Hq] Hall]. simpl in *.
    destruct (Z.eqb_spec p price) as [->|Hnp]; [|destruct (before price p)].
    + constructor; [|done]. split; simpl.
      * by destruct q.
      * apply Forall_app. split; [done|]. by repeat constructor.
    + constructor; [repeat constructor; done|]. by constructor.
    + constructor; [done|]. by apply IH.
Qed.

Lemma push_back_at_level price o (m : list (Z * list Order.t)) :
  StronglySorted R m.*1 ->
  PriceMap.level price (PriceMap.push_back_at before price o m) =
    PriceMap.level price m ++ [o].
Proof.
  unfold PriceMap.level.
  induction m as [|[p q] m IH]; simpl; intros Hs.
  - by rewrite Z.eqb_refl.
  - destruct (Z.eqb_spec p price) as [->|Hne]; simpl.
    + by rewrite Z.eqb_refl.
    + destruct (before price p) eqn:Hb; simpl.
      * rewrite Z.eqb_refl. apply before_spec in Hb.
        pose proof (sorted_fresh _ _ _ Hb Hs) as Hfresh.
        apply not_elem_of_cons in Hfresh as [_ Hfresh].
        apply level_gone in Hfresh. unfold PriceMap.level in Hfresh.
        by rewrite Hfresh.
      * destruct (Z.eqb_spec p price); [done|].
        apply IH. by apply StronglySorted_inv in Hs as [? _].
Qed.

Lemma push_back_at_level_ne price o (m : list (Z * list Order.t)) p :
  p ≠ price ->
  PriceMap.level p (PriceMap.push_back_at before price o m) = PriceMap.level p m.
Proof.
  intros Hne. unfold PriceMap.level.
  induction m as [|[p' q] m IH]; simpl.
  - by destruct (Z.eqb_spec price p).
  - destruct (Z.eqb_spec p' price) as [->|Hne']; simpl.
    + by destruct (Z.eqb_spec price p).
    + destruct (before price p'); simpl.
      * by destruct (Z.eqb_spec price p).
      * destruct (Z.eqb_spec p' p); [done|]. apply IH.
Qed.
End price_map.

(** The two comparators. *)
Lemma greater_spec a b : PriceMap.greater a b = true <-> b < a.
Proof. unfold PriceMap.greater. apply Z.ltb_lt. Qed.

Lemma less_spec a b : PriceMap.less a b = true <-> a < b.
Proof. unfold PriceMap.less. apply Z.ltb_lt. Qed.

Ltac order_facts :=
  first [ exact greater_spec | exact less_spec | intros; lia ].

(** ** [AddOrder] *)

Lemma AddOrder_duplicate reads order b :
  is_Some (orders_ b !! Order.order_id_ order) -> AddOrder reads order b = Ok (b, []).
Proof. intros Hs. unfold AddOrder, Order.GetOrderId. by rewrite decide_True. Qed.

Lemma AddOrder_reject reads order b :
  Order.order_type_ order = FillAndKill ->
  CanMatch (Order.side_ order) (Order.price_ order) b = false ->
  AddOrder reads order b = Ok (b, []).
Proof.
  intros Ht Hc. unfold AddOrder, Order.GetOrderId, Order.GetOrderType, Order.GetSide,
    Order.GetPrice.
  case_decide; [done|]. by rewrite bool_decide_eq_true_2, Hc.
Qed.

Lemma AddOrder_accept reads order b :
  orders_ b !! Order.order_id_ order = None ->
  Order.order_type_ order = GoodTillCancel ∨
    CanMatch (Order.side_ order) (Order.price_ order) b = true ->
  AddOrder reads order b = MatchOrders reads (inserted order b).
Proof.
  intros Hn Hor. unfold AddOrder, Order.GetOrderId, Order.GetOrderType, Order.GetSide,
    Order.GetPrice.
  rewrite decide_False by (rewrite Hn; by intros [? ?]).
  assert (bool_decide (Order.order_type_ order = FillAndKill)
          && negb (CanMatch (Order.side_ order) (Order.price_ order) b) = false) as ->.
  { destruct Hor as [Hg|Hc].
    - rewrite bool_decide_eq_false_2; [done|congruence].
    - rewrite Hc. apply andb_false_r. }
  unfold inserted. by destruct (Order.side_ order).
Qed.

Lemma resting_inserted order b : resting (inserted order b) ≡ₚ order :: resting b.
Proof.
  unfold resting, inserted; simpl. destruct (Order.side_ order).
  - by rewrite push_back_at_perm.
  - rewrite push_back_at_perm. by rewrite <- Permutation_middle.
Qed.

Lemma consistent_inserted order b :
  consistent b -> orders_ b !! Order.order_id_ order = None ->
  consistent (inserted order b).
Proof.
  intros Hc Hn.
  pose proof (registered_insert _ _ order (consistent_registered _ Hc) Hn) as Hr.
  apply (registered_perm _ (resting (inserted order b))) in Hr;
    [|by rewrite resting_inserted].
  destruct Hr as (Hnd & Hin & Hout).
  destruct Hc as [Hsb Hsa Hlb Hla _ _ _].
  split; try done; unfold inserted; simpl; destruct (Order.side_ order) eqn:Hside; try done.
  - eapply push_back_at_sorted; try done; order_facts.
  - eapply push_back_at_sorted; try done; order_facts.
  - by apply push_back_at_level_ok.
  - by apply push_back_at_level_ok.
Qed.

(** ** [CancelOrder] under [AsBuilt] *)

Lemma at_app price (m1 : list (Z * list Order.t)) queue m2 :
  price ∉ m1.*1 -> PriceMap.at_ price (m1 ++ (price, queue) :: m2) = Ok queue.
Proof.
  induction m1 as [|[p q] m1 IH]; simpl; intros Hn.
  - by rewrite Z.eqb_refl.
  - apply not_elem_of_cons in Hn as [Hp Hn]. simpl in Hp.
    destruct (Z.eqb_spec p price); [congruence|]. by apply IH.
Qed.

Lemma store_app price orders (m1 : list (Z * list Order.t)) queue m2 :
  price ∉ m1.*1 ->
  PriceMap.store price orders (m1 ++ (price, queue) :: m2) = m1 ++ requeue price orders m2.
Proof.
  unfold PriceMap.store, requeue.
  induction m1 as [|[p q] m1 IH]; simpl; intros Hn.
  - rewrite Z.eqb_refl. by destruct orders.
  - apply not_elem_of_cons in Hn as [Hp Hn]. simpl in Hp.
    destruct (Z.eqb_spec p price); [congruence|].
    specialize (IH Hn). destruct orders; simpl in *; by rewrite IH.
Qed.

Lemma list_erase_app o (q1 q2 : list Order.t) :
  Order.order_id_ o ∉ Order.order_id_ <$> q1 ->
  list_erase (Order.order_id_ o) (q1 ++ o :: q2) = q1 ++ q2.
Proof.
  induction q1 as [|x q1 IH]; simpl; intros Hn.
  - by rewrite N.eqb_refl.
  - apply not_elem_of_cons in Hn as [Hx Hn].
    destruct (N.eqb_spec (Order.order_id_ x) (Order.order_id_ o)); [congruence|].
    by rewrite IH.
Qed.

Lemma elem_of_queues o (m : list (Z * list Order.t)) :
  o ∈ concat m.*2 -> exists p q, (p, q) ∈ m ∧ o ∈ q.
Proof.
  induction m as [|[p q] m IH]; simpl.
  - by intros ?%elem_of_nil.
  - rewrite elem_of_app. intros [Ho|Ho].
    + exists p, q. split; [left|done].
    + destruct (IH Ho) as (p' & q' & ? & ?). exists p', q'. split; [by right|done].
Qed.

(** A queued order sits in the queue of the level at its price. *)
Lemma queued_split side (m : list (Z * list Order.t)) o :
  Forall (level_ok side) m -> o ∈ concat m.*2 ->
  Order.side_ o = side ∧
  exists m1 q1 q2 m2, m = m1 ++ (Order.price_ o, q1 ++ o :: q2) :: m2.
Proof.
  intros Hall Ho. apply elem_of_queues in Ho as (p & q & Hlv & Hoq).
  rewrite Forall_forall in Hall. destruct (Hall _ Hlv) as [_ Hq]. simpl in Hq.
  rewrite Forall_forall in Hq. destruct (Hq _ Hoq) as [Hs Hp].
  split; [done|].
  apply list_elem_of_split in Hlv as (m1 & m2 & ->).
  apply list_elem_of_split in Hoq as (q1 & q2 & ->).
  exists m1, q1, q2, m2. by rewrite Hp.
Qed.

Lemma sorted_split_fresh (R : Z -> Z -> Prop) (m1 : list (Z * list Order.t)) price queue m2 :
  (forall x, ¬ R x x) ->
  StronglySorted R (m1 ++ (price, queue) :: m2).*1 ->
  (price ∉ m1.*1) ∧ (price ∉ m2.*1).
Proof.
  intros Hirr Hs. rewrite fmap_app, fmap_cons in Hs. simpl in Hs.
  apply StronglySorted_app in Hs as (Hcross & _ & Hs2). split.
  - intros Hin. apply (Hirr price), Hcross; [done|left].
  - apply StronglySorted_inv in Hs2 as [_ Hall]. rewrite Forall_forall in Hall.
    intros Hin. by apply (Hirr price), Hall.
Qed.

Lemma sorted_requeue (R : Z -> Z -> Prop) (m1 : list (Z * list Order.t)) price queue orders m2 :
  StronglySorted R (m1 ++ (price, queue) :: m2).*1 ->
  StronglySorted R (m1 ++ requeue price orders m2).*1.
Proof.
  rewrite !fmap_app. intros Hs. apply StronglySorted_app in Hs as (Hcross & Hs1 & Hs2).
  apply StronglySorted_app. split_and!; [|done|by eapply requeue_keys_sorted].
  intros x1 x2 H1 H2. apply Hcross; [done|].
  unfold requeue in H2. destruct orders; [|done]. rewrite fmap_cons. by right.
Qed.

Lemma level_ok_requeue side (m1 : list (Z * list Order.t)) price q1 o q2 m2 :
  Forall (level_ok side) (m1 ++ (price, q1 ++ o :: q2) :: m2) ->
  Forall (level_ok side) (m1 ++ requeue price (q1 ++ q2) m2).
Proof.
  rewrite !Forall_app, Forall_cons. intros (H1 & [_ Hq] & H2). split; [done|].
  unfold requeue. destruct (q1 ++ q2) eqn:E; [done|].
  constructor; [|done]. split; [done|]. simpl in *. rewrite <- E.
  rewrite Forall_app, Forall_cons in Hq. rewrite Forall_app. tauto.
Qed.

Lemma concat_split_perm (m1 : list (Z * list Order.t)) price q1 o q2 m2 :
  concat (m1 ++ (price, q1 ++ o :: q2) :: m2).*2 ≡ₚ
  o :: concat (m1 ++ requeue price (q1 ++ q2) m2).*2.
Proof.
  rewrite !fmap_app, !concat_app, concat_requeue, fmap_cons, concat_cons. simpl.
  rewrite <- !app_assoc. simpl.
  by rewrite <- !Permutation_middle.
Qed.

(** The best level after a level lost an order: the same one, or the next. *)
Lemma best_after_requeue (R : Z -> Z -> Prop) (m1 : list (Z * list Order.t)) price queue orders m2 :
  StronglySorted R (m1 ++ (price, queue) :: m2).*1 ->
  match m1 ++ requeue price orders m2 with
  | [] => True
  | (x, _) :: _ =>
      match m1 ++ (price, queue) :: m2 with
      | (y, _) :: _ => x = y ∨ R y x
      | [] => False
      end
  end.
Proof.
  intros Hs. destruct m1 as [|[p q] m1]; simpl.
  - unfold requeue. destruct orders; [|by left].
    destruct m2 as [|[x ?] m2]; [done|]. right.
    simpl in Hs. apply StronglySorted_inv in Hs as [_ Hall].
    by apply Forall_cons in Hall as [? _].
  - by left.
Qed.

Lemma cancel_levels side (R : Z -> Z -> Prop) (m : list (Z * list Order.t)) o :
  (forall x, ¬ R x x) ->
  StronglySorted R m.*1 -> Forall (level_ok side) m ->
  NoDup (Order.order_id_ <$> concat m.*2) -> o ∈ concat m.*2 ->
  exists m1 q1 q2 m2,
    m = m1 ++ (Order.price_ o, q1 ++ o :: q2) :: m2 ∧
    PriceMap.at_ (Order.price_ o) m = Ok (q1 ++ o :: q2) ∧
    list_erase (Order.order_id_ o) (q1 ++ o :: q2) = q1 ++ q2 ∧
    PriceMap.store (Order.price_ o)
      (list_erase (Order.order_id_ o) (q1 ++ o :: q2)) m =
      m1 ++ requeue (Order.price_ o) (q1 ++ q2) m2.
Proof.
  intros Hirr Hs Hall Hnd Ho.
  destruct (queued_split _ _ _ Hall Ho) as (_ & m1 & q1 & q2 & m2 & ->).
  destruct (sorted_split_fresh _ _ _ _ _ Hirr Hs) as [Hf1 _].
  assert (Hq1 : Order.order_id_ o ∉ Order.order_id_ <$> q1).
  { rewrite fmap_app, concat_app, fmap_cons, concat_cons in Hnd. simpl in Hnd.
    rewrite !fmap_app in Hnd.
    apply NoDup_app in Hnd as (_ & _ & Hnd). apply NoDup_app in Hnd as (Hnd & _ & _).
    apply NoDup_app in Hnd as (_ & Hd & _).
    intros Hin. apply (Hd _ Hin). rewrite fmap_cons. left. }
  exists m1, q1, q2, m2. split_and!; [done|by apply at_app|by apply list_erase_app|].
  rewrite list_erase_app by done. by apply store_app.
Qed.

Lemma side_before_irrefl side x : ¬ side_before side x x.
Proof. destruct side; simpl; lia. Qed.

Lemma consistent_sorted side b :
  consistent b -> StronglySorted (side_before side) (side_levels side b).*1.
Proof. intros Hc. destruct side; simpl; apply Hc. Qed.

Lemma consistent_level_ok side b :
  consistent b -> Forall (level_ok side) (side_levels side b).
Proof. intros Hc. destruct side; simpl; apply Hc. Qed.

Lemma resting_sides side b :
  resting b ≡ₚ concat (side_levels side b).*2 ++ concat (side_levels (opposite side) b).*2.
Proof. unfold resting. destruct side; simpl; [done|apply Permutation_app_comm]. Qed.

(** A queued order is queued on its own side. *)
Lemma resting_own_side b o :
  consistent b -> o ∈ resting b -> o ∈ concat (side_levels (Order.side_ o) b).*2.
Proof.
  intros Hc Ho. unfold resting in Ho. apply elem_of_app in Ho as [Ho|Ho].
  - destruct (queued_split Buy _ _ (bids_levels _ Hc) Ho) as [-> _]. done.
  - destruct (queued_split Sell _ _ (asks_levels _ Hc) Ho) as [-> _]. done.
Qed.

(** The effect of [CancelOrder] on a registered identifier. *)
Lemma CancelOrder_registered id e b :
  consistent b -> orders_ b !! id = Some e ->
  let o := order_ e in
  exists b' m1 q1 q2 m2,
    CancelOrder AsBuilt id b = Ok b' ∧
    Order.order_id_ o = id ∧
    side_levels (Order.side_ o) b = m1 ++ (Order.price_ o, q1 ++ o :: q2) :: m2 ∧
    list_erase id (q1 ++ o :: q2) = q1 ++ q2 ∧
    side_levels (Order.side_ o) b' = m1 ++ requeue (Order.price_ o) (q1 ++ q2) m2 ∧
    side_levels (opposite (Order.side_ o)) b' = side_levels (opposite (Order.side_ o)) b ∧
    orders_ b' = delete id (orders_ b).
Proof.
  intros Hc He o.
  destruct (registered_resting _ Hc _ _ He) as [Ho Hid]. fold o in Ho, Hid.
  pose proof (resting_registered _ Hc _ Ho) as He'. rewrite Hid, He in He'.
  injection He' as He'.
  pose proof (resting_own_side _ _ Hc Ho) as Hown.
  assert (Hnd : NoDup (Order.order_id_ <$> concat (side_levels (Order.side_ o) b).*2)).
  { pose proof (ids_unique _ Hc) as Hnd.
    rewrite (resting_sides (Order.side_ o)), fmap_app in Hnd.
    by apply NoDup_app in Hnd as (? & _). }
  destruct (cancel_levels _ _ _ _ (side_before_irrefl (Order.side_ o))
              (consistent_sorted _ _ Hc) (consistent_level_ok _ _ Hc) Hnd Hown)
    as (m1 & q1 & q2 & m2 & Hm & Hat & Her & Hst).
  unfold CancelOrder. rewrite He, He'. fold o.
  unfold Order.GetSide, Order.GetPrice. rewrite Hid.
  rewrite Hid in Her.
  destruct (Order.side_ o) eqn:Hside; simpl in Hm, Hat, Hst |- *;
    rewrite Hat; simpl; rewrite Hid in Hst; rewrite Hst;
    eexists _, m1, q1, q2, m2; split_and!; done.
Qed.

Lemma consistent_by_sides b :
  (forall s, StronglySorted (side_before s) (side_levels s b).*1) ->
  (forall s, Forall (level_ok s) (side_levels s b)) ->
  registered (resting b) (orders_ b) ->
  consistent b.
Proof.
  intros Hs Hl (Hnd & Hin & Hout).
  split; [apply (Hs Buy)|apply (Hs Sell)|apply (Hl Buy)|apply (Hl Sell)|done..].
Qed.

Lemma uncrossed_sides side b :
  uncrossed b <->
  match side_levels side b, side_levels (opposite side) b with
  | (x, _) :: _, (y, _) :: _ => side_before (opposite side) x y
  | _, _ => True
  end.
Proof.
  unfold uncrossed. destruct side; simpl.
  - done.
  - destruct (bids_ b) as [|[? ?] ?], (asks_ b) as [|[? ?] ?]; done.
Qed.

Lemma CancelOrder_consistent id b :
  consistent b ->
  exists b', CancelOrder AsBuilt id b = Ok b' ∧ consistent b' ∧ (uncrossed b -> uncrossed b').
Proof.
  intros Hc. destruct (orders_ b !! id) as [e|] eqn:He.
  2:{ exists b. unfold CancelOrder. by rewrite He. }
  destruct (CancelOrder_registered _ _ _ Hc He)
    as (b' & m1 & q1 & q2 & m2 & Hrun & Hid & Hm & _ & Hm' & Hopp & Hreg).
  set (o := order_ e) in *. set (s := Order.side_ o) in *.
  exists b'. split_and!; [done| |].
  - apply consistent_by_sides.
    + intros s'. destruct (decide (s' = s)) as [->|Hne].
      * rewrite Hm'. eapply sorted_requeue. rewrite <- Hm. by apply consistent_sorted.
      * assert (s' = opposite s) as -> by (by destruct s, s').
        rewrite Hopp. by apply consistent_sorted.
    + intros s'. destruct (decide (s' = s)) as [->|Hne].
      * rewrite Hm'. eapply level_ok_requeue. rewrite <- Hm. by apply consistent_level_ok.
      * assert (s' = opposite s) as -> by (by destruct s, s').
        rewrite Hopp. by apply consistent_level_ok.
    + rewrite Hreg, <- Hid. apply registered_delete.
      eapply registered_perm; [|by apply consistent_registered].
      rewrite (resting_sides s b), (resting_sides s b'), Hm, Hm', Hopp.
      by rewrite concat_split_perm.
  - rewrite (uncrossed_sides s b), (uncrossed_sides s b'), Hm, Hm', Hopp.
    pose proof (best_after_requeue (side_before s) m1 (Order.price_ o)
                  (q1 ++ o :: q2) (q1 ++ q2) m2) as Hbest.
    rewrite <- Hm in Hbest. specialize (Hbest (consistent_sorted _ _ Hc)).
    rewrite Hm in Hbest.
    destruct (m1 ++ requeue (Order.price_ o) (q1 ++ q2) m2) as [|[x ?] ?]; [done|].
    destruct (m1 ++ (Order.price_ o, q1 ++ o :: q2) :: m2) as [|[y ?] ?]; [done|].
    destruct (side_levels (opposite s) b) as [|[z ?] ?]; [done|].
    destruct s; simpl in *; lia.
Qed.

(** ** The loops under [AsBuilt] on an arbitrary book *)

Lemma MatchLevels_grow fuel : forall bid_price ask_price b trades b' trades',
  MatchLevels AsBuilt fuel bid_price ask_price b trades = Ok (b', trades') ->
  exists new, trades' = trades ++ new ∧ (new = [] -> b' = b).
Proof.
  induction fuel as [|fuel IH]; intros bid_price ask_price b trades b' trades'; [done|].
  rewrite MatchLevels_AsBuilt.
  destruct (PriceMap.level bid_price (bids_ b)) as [|bid bids].
  { intros [= <- <-]. exists []. by rewrite app_nil_r. }
  destruct (PriceMap.level ask_price (asks_ b)) as [|ask asks].
  { intros [= <- <-]. exists []. by rewrite app_nil_r. }
  rewrite MatchFront_Ok. simpl. intros Hrun.
  apply IH in Hrun as (new & -> & _).
  eexists (_ :: new). by rewrite <- app_assoc.
Qed.

Lemma MatchLoop_grow fuel : forall b trades b' trades',
  MatchLoop AsBuilt fuel b trades = Ok (b', trades') ->
  exists new, trades' = trades ++ new ∧ (new = [] -> b' = b).
Proof.
  induction fuel as [|fuel IH]; intros b trades b' trades'; [done|].
  cbn [MatchLoop].
  destruct (bids_ b) as [|[bid_price ?] ?].
  { intros [= <- <-]. exists []. by rewrite app_nil_r. }
  destruct (asks_ b) as [|[ask_price ?] ?].
  { intros [= <- <-]. exists []. by rewrite app_nil_r. }
  destruct (bid_price <? ask_price).
  { intros [= <- <-]. exists []. by rewrite app_nil_r. }
  intros Hrun. apply bind_Ok in Hrun as ([b1 t1] & Hin & Hrun).
  apply MatchLevels_grow in Hin as (new1 & -> & Hsame1).
  apply IH in Hrun as (new2 & -> & Hsame2).
  exists (new1 ++ new2). rewrite app_assoc. split; [done|].
  intros [-> ->]%app_eq_nil. rewrite Hsame2 by done. by apply Hsame1.
Qed.

Lemma MatchOrders_grow b b' trades :
  MatchOrders AsBuilt b = Ok (b', trades) -> trades = [] -> b' = b.
Proof.
  unfold MatchOrders. intros Hrun Ht.
  apply bind_Ok in Hrun as ([b1 t1] & Hloop & Hret).
  injection Hret as <- <-. rewrite AfterLoop_id.
  apply MatchLoop_grow in Hloop as (new & Hnew & Hsame). simpl in Hnew.
  apply Hsame. congruence.
Qed.

(** ** The public operations under [AsBuilt] keep the invariant *)

Lemma AddOrder_wf order b :
  wf b -> exists b' trades, AddOrder AsBuilt order b = Ok (b', trades) ∧ wf b'.
Proof.
  intros [Hc Hu].
  destruct (orders_ b !! Order.order_id_ order) as [e|] eqn:He.
  { exists b, []. split; [|done]. apply AddOrder_duplicate. rewrite He. eauto. }
  destruct (Order.order_type_ order) eqn:Ht.
  - rewrite AddOrder_accept by (done || by left).
    destruct (MatchOrders_steps _ (consistent_inserted order b Hc He))
      as (b' & trades & Hrun & _ & Hc' & Hu').
    by exists b', trades.
  - destruct (CanMatch (Order.side_ order) (Order.price_ order) b) eqn:Hm.
    + rewrite AddOrder_accept by (done || by right).
      destruct (MatchOrders_steps _ (consistent_inserted order b Hc He))
        as (b' & trades & Hrun & _ & Hc' & Hu').
      by exists b', trades.
    + exists b, []. split; [|done]. by apply AddOrder_reject.
Qed.

Lemma CancelOrder_wf id b :
  wf b -> exists b', CancelOrder AsBuilt id b = Ok b' ∧ wf b'.
Proof.
  intros [Hc Hu]. destruct (CancelOrder_consistent id b Hc) as (b' & Hrun & Hc' & Hu').
  exists b'. split; [done|]. split; [done|by apply Hu'].
Qed.

Lemma MatchOrder_wf order b :
  wf b -> exists b' trades, MatchOrder AsBuilt order b = Ok (b', trades) ∧ wf b'.
Proof.
  intros Hwf. unfold MatchOrder.
  destruct (orders_ b !! OrderModify.GetOrderId order) as [[existing ?]|] eqn:He.
  2:{ by exists b, []. }
  destruct (CancelOrder_wf (OrderModify.GetOrderId order) b Hwf) as (b1 & -> & Hwf1).
  simpl. by apply AddOrder_wf.
Qed.

Lemma wf_empty : wf OrderBook.empty.
Proof.
  split; [|done]. split; simpl; try by constructor.
  intros o Ho. by apply elem_of_nil in Ho.
Qed.

Lemma exec_wf o b :
  wf b -> exists b' trades, exec AsBuilt o b = Ok (b', trades) ∧ wf b'.
Proof.
  intros Hwf. destruct o as [order_type order_id side price quantity|order_id|order]; simpl.
  - by apply AddOrder_wf.
  - destruct (CancelOrder_wf order_id b Hwf) as (b' & -> & Hwf'). by exists b', [].
  - by apply MatchOrder_wf.
Qed.

(** Every sequence of calls returns, and leaves a well-formed book. *)
Lemma run_wf ops : forall b,
  wf b -> exists b' trades, run AsBuilt ops b = Ok (b', trades) ∧ wf b'.
Proof.
  induction ops as [|o ops IH]; intros b Hwf; simpl.
  - by exists b, [].
  - destruct (exec_wf o b Hwf) as (b1 & t1 & -> & Hwf1). simpl.
    destruct (IH b1 Hwf1) as (b2 & t2 & -> & Hwf2). simpl.
    by exists b2, (t1 ++ t2).
Qed.

Lemma reachable_wf b : reachable AsBuilt b -> wf b.
Proof.
  intros (ops & trades & Hrun).
  destruct (run_wf ops _ wf_empty) as (b' & trades' & Hrun' & Hwf). congruence.
Qed.

Lemma CanMatch_false side price b :
  CanMatch side price b = false <->
  match side with
  | Buy => asks_ b = [] ∨ exists best_ask queue rest,
             asks_ b = (best_ask, queue) :: rest ∧ price < best_ask
  | Sell => bids_ b = [] ∨ exists best_bid queue rest,
             bids_ b = (best_bid, queue) :: rest ∧ best_bid < price
  end.
Proof.
  unfold CanMatch. destruct side.
  - destruct (asks_ b) as [|[best queue] rest]; [naive_solver|].
    rewrite Z.leb_gt. split; [by eauto 6|].
    intros [?|(? & ? & ? & [= -> _ _] & ?)]; done.
  - destruct (bids_ b) as [|[best queue] rest]; [naive_solver|].
    rewrite Z.leb_gt. split; [by eauto 6|].
    intros [?|(? & ? & ? & [= -> _ _] & ?)]; done.
Qed.

(** The accumulation of [CreateLevelInfos] is the sum modulo [2^32]. *)
Lemma accumulate_wrapped (orders : list Order.t) : forall start,
  fold_left (fun running_sum order =>
               ((running_sum + Order.GetRemainingQuantity order) mod Quantity_modulus)%N)
            orders (start mod Quantity_modulus)%N =
  ((start + total_remaining orders) mod Quantity_modulus)%N.
Proof.
  induction orders as [|o orders IH]; intros start; simpl.
  - by rewrite N.add_0_r.
  - rewrite N.Div0.add_mod_idemp_l, IH. f_equal.
    unfold Order.GetRemainingQuantity. lia.
Qed.

Lemma CreateLevelInfos_wrapped price orders :
  CreateLevelInfos price orders = wrapped_level (price, orders).
Proof.
  unfold CreateLevelInfos, wrapped_level. f_equal.
  apply (accumulate_wrapped orders 0).
Qed.

Lemma GetOrderInfos_wrapped b :
  GetOrderInfos b =
    OrderBookLevelInfos.mk (wrapped_level <$> bids_ b) (wrapped_level <$> asks_ b).
Proof.
  unfold GetOrderInfos. f_equal; apply list_fmap_ext;
    intros i [price orders] _; apply CreateLevelInfos_wrapped.
Qed.

Lemma CanMatch_false_sides side price b :
  CanMatch side price b = false <->
  match side_levels (opposite side) b with
  | [] => True
  | (best, _) :: _ => side_before (opposite side) price best
  end.
Proof.
  unfold CanMatch. destruct side; simpl.
  - destruct (asks_ b) as [|[best ?] ?]; [done|]. apply Z.leb_gt.
  - destruct (bids_ b) as [|[best ?] ?]; [done|]. apply Z.leb_gt.
Qed.

Lemma side_levels_inserted side order b :
  side_levels side (inserted order b) =
    if decide (side = Order.side_ order)
    then PriceMap.push_back_at
           (match side with Buy => PriceMap.greater | Sell => PriceMap.less end)
           (Order.price_ order) order (side_levels side b)
    else side_levels side b.
Proof. unfold inserted. by destruct side, (Order.side_ order). Qed.

(** Line 259 and line 264: the new order goes to the back of the queue of
    its level, and no other queue changes. *)
Lemma level_inserted side p order b :
  consistent b ->
  PriceMap.level p (side_levels side (inserted order b)) =
    if decide (side = Order.side_ order ∧ p = Order.price_ order)
    then PriceMap.level p (side_levels side b) ++ [order]
    else PriceMap.level p (side_levels side b).
Proof.
  intros Hc. rewrite side_levels_inserted.
  pose proof (consistent_sorted side b Hc) as Hs.
  destruct (decide (side = Order.side_ order)) as [Hside|Hside].
  2:{ rewrite decide_False by tauto. done. }
  destruct (decide (p = Order.price_ order)) as [->|Hp].
  - rewrite decide_True by done.
    destruct side; simpl in Hs.
    + eapply push_back_at_level with (R := fun p q : Z => q < p);
        try exact Hs; order_facts.
    + eapply push_back_at_level with (R := fun p q : Z => p < q);
        try exact Hs; order_facts.
  - rewrite decide_False by tauto. by apply push_back_at_level_ne.
Qed.

(** ** The registry and the queues *)

Lemma registered_size (l : list Order.t) : forall reg : gmap N OrderEntry,
  registered l reg -> size reg = length l.
Proof.
  induction l as [|o l IH]; intros reg Hr.
  - destruct Hr as (_ & _ & Hout).
    assert (reg = ∅) as ->; [|apply map_size_empty].
    apply map_empty. intros i. destruct (reg !! i) as [e|] eqn:He; [|done].
    destruct (Hout _ _ He) as [Hin _]. by apply elem_of_nil in Hin.
  - pose proof (registered_delete _ _ _ Hr) as Hd. apply IH in Hd.
    destruct Hr as (_ & Hin & _).
    specialize (Hin o (list_elem_of_here _ _)).
    rewrite map_size_delete, Hin in Hd. simpl.
    assert (size reg ≠ 0%nat); [|lia].
    apply map_size_non_empty_iff. intros Hempty. by rewrite Hempty in Hin.
Qed.

Lemma consistent_size b : consistent b -> Size b = length (resting b).
Proof. intros Hc. apply registered_size. by apply consistent_registered. Qed.

Lemma levels_length_le side (m : list (Z * list Order.t)) :
  Forall (level_ok side) m -> (length m <= length (concat m.*2))%nat.
Proof.
  induction m as [|[p q] m IH]; intros Hall; [done|].
  apply Forall_cons in Hall as [[Hne _] Hall]. specialize (IH Hall).
  rewrite fmap_cons, concat_cons, length_app. cbn [snd length] in *.
  destruct q; [done|]. cbn [length]. lia.
Qed.

(** ** Quantities *)

Lemma filled_by_filled_by q1 q2 o :
  filled_by q2 (filled_by q1 o) = filled_by (q1 + q2) o.
Proof. unfold filled_by; simpl. f_equal. lia. Qed.

Lemma Fills_eq quantities : forall o,
  Fills quantities o =
    if (total quantities <=? Order.remaining_quantity_ o)%N
    then Ok (filled_by (total quantities) o) else Throw logic_error.
Proof.
  induction quantities as [|q qs IH]; intros o; simpl.
  - destruct (N.leb_spec 0 (Order.remaining_quantity_ o)); [|lia].
    destruct o. unfold filled_by; simpl. by rewrite N.sub_0_r.
  - destruct (N.ltb_spec (Order.remaining_quantity_ o) q) as [Hlt|Hle].
    + rewrite Fill_Throw by done. simpl.
      destruct (N.leb_spec (q + total qs) (Order.remaining_quantity_ o)); [lia|done].
    + rewrite Fill_Ok by done. simpl. rewrite IH, filled_by_filled_by. simpl.
      destruct (N.leb_spec (total qs) (Order.remaining_quantity_ o - q)),
               (N.leb_spec (q + total qs) (Order.remaining_quantity_ o)); try lia; done.
Qed.

Lemma GetFilledQuantity_small o :
  (Order.remaining_quantity_ o <= Order.initial_quantity_ o)%N ->
  (Order.initial_quantity_ o < Quantity_modulus)%N ->
  Order.GetFilledQuantity o = (Order.initial_quantity_ o - Order.remaining_quantity_ o)%N.
Proof.
  intros Hle Hlt. unfold Order.GetFilledQuantity, Quantity_wrap,
    Order.GetInitialQuantity, Order.GetRemainingQuantity.
  unfold Quantity_modulus in *.
  rewrite Z.mod_small by lia. lia.
Qed.

(** ** Orders that rest and orders that cross *)

Lemma MatchOrders_uncrossed reads b : uncrossed b -> MatchOrders reads b = Ok (b, []).
Proof.
  intros Hu. unfold MatchOrders. cbn [MatchLoop]. unfold uncrossed in Hu.
  destruct (bids_ b) as [|[bid_price ?] ?] eqn:Hb; simpl; [by rewrite AfterLoop_id|].
  destruct (asks_ b) as [|[ask_price ?] ?] eqn:Ha; simpl; [by rewrite AfterLoop_id|].
  destruct (Z.ltb_spec bid_price ask_price); [|lia]. simpl. by rewrite AfterLoop_id.
Qed.

Lemma CanMatch_true_sides side price b :
  CanMatch side price b = true <->
  exists best queue rest,
    side_levels (opposite side) b = (best, queue) :: rest ∧
    ¬ side_before (opposite side) price best.
Proof.
  unfold CanMatch. destruct side; simpl.
  - destruct (asks_ b) as [|[best queue] rest].
    + split; [done|]. by intros (? & ? & ? & ? & _).
    + rewrite Z.leb_le. split.
      * intros Hle. exists best, queue, rest. split; [done|lia].
      * intros (? & ? & ? & [= <- _ _] & ?). lia.
  - destruct (bids_ b) as [|[best queue] rest].
    + split; [done|]. by intros (? & ? & ? & ? & _).
    + rewrite Z.leb_le. split.
      * intros Hle. exists best, queue, rest. split; [done|lia].
      * intros (? & ? & ? & [= <- _ _] & ?). lia.
Qed.

(** The best level of a map after [push_back_at]. *)
Lemma push_back_at_best before price o (m : list (Z * list Order.t)) :
  match PriceMap.push_back_at before price o m, m with
  | (x, _) :: _, (h, _) :: _ => x = price ∨ x = h
  | (x, _) :: _, [] => x = price
  | [], _ => False
  end.
Proof.
  destruct m as [|[h q] rest]; simpl; [done|].
  destruct (h =? price); [by right|]. destruct (before price h); [by left|by right].
Qed.

Lemma inserted_uncrossed order b :
  uncrossed b ->
  CanMatch (Order.side_ order) (Order.price_ order) b = false ->
  uncrossed (inserted order b).
Proof.
  intros Hu Hm. apply CanMatch_false_sides in Hm.
  apply (uncrossed_sides (Order.side_ order)) in Hu.
  apply (uncrossed_sides (Order.side_ order)).
  rewrite !side_levels_inserted. rewrite decide_True by done.
  rewrite decide_False by (by destruct (Order.side_ order)).
  set (before := match Order.side_ order with
                 | Buy => PriceMap.greater | Sell => PriceMap.less end).
  pose proof (push_back_at_best before (Order.price_ order) order
                (side_levels (Order.side_ order) b)) as Hbest.
  destruct (PriceMap.push_back_at before _ _ _) as [|[x ?] ?]; [done|].
  destruct (side_levels (opposite (Order.side_ order)) b) as [|[y ?] ?]; [done|].
  destruct (side_levels (Order.side_ order) b) as [|[h ?] ?].
  - by subst x.
  - by destruct Hbest as [-> | ->].
Qed.

Lemma inserted_front order b :
  uncrossed b ->
  CanMatch (Order.side_ order) (Order.price_ order) b = true ->
  side_levels (Order.side_ order) (inserted order b) =
    (Order.price_ order, [order]) :: side_levels (Order.side_ order) b.
Proof.
  intros Hu (best & queue & rest & Hopp & Hcross)%CanMatch_true_sides.
  apply (uncrossed_sides (Order.side_ order)) in Hu. rewrite Hopp in Hu.
  rewrite side_levels_inserted, decide_True by done.
  destruct (side_levels (Order.side_ order) b) as [|[h q] m]; [done|].
  simpl. unfold PriceMap.greater, PriceMap.less.
  destruct (Order.side_ order); simpl in *.
  - destruct (Z.eqb_spec h (Order.price_ order)); [lia|].
    destruct (Z.ltb_spec h (Order.price_ order)); [done|lia].
  - destruct (Z.eqb_spec h (Order.price_ order)); [lia|].
    destruct (Z.ltb_spec (Order.price_ order) h); [done|lia].
Qed.

Lemma AddOrder_resting_result reads order b :
  wf b -> orders_ b !! Order.order_id_ order = None ->
  Order.order_type_ order = GoodTillCancel ->
  CanMatch (Order.side_ order) (Order.price_ order) b = false ->
  AddOrder reads order b = Ok (inserted order b, []).
Proof.
  intros [Hc Hu] Hn Ht Hm. rewrite AddOrder_accept by (done || by left).
  apply MatchOrders_uncrossed. by apply inserted_uncrossed.
Qed.

(** * The routines under [Strict] *)

(** ** The matching loop *)

(** The minimum of the two remaining quantities fills one of the two front
    orders at least; [pop_front] unlinks it, and line 213 or line 217 reads
    it through the reference that was bound to it. *)
Lemma MatchFront_Strict bid_price ask_price bid bids ask asks b :
  MatchFront Strict bid_price ask_price bid bids ask asks b =
    Undefined (if (Order.remaining_quantity_ bid <=? Order.remaining_quantity_ ask)%N
               then 213 else 217).
Proof.
  unfold MatchFront, Order.GetRemainingQuantity.
  set (quantity := N.min _ _).
  rewrite (Fill_Ok quantity bid) by (unfold quantity; lia).
  rewrite (Fill_Ok quantity ask) by (unfold quantity; lia).
  simpl. rewrite !IsFilled_filled_by by (unfold quantity; lia).
  destruct (N.leb_spec (Order.remaining_quantity_ bid) (Order.remaining_quantity_ ask)).
  - replace quantity with (Order.remaining_quantity_ bid) by (unfold quantity; lia).
    by rewrite N.eqb_refl.
  - replace quantity with (Order.remaining_quantity_ ask) by (unfold quantity; lia).
    destruct (N.eqb_spec (Order.remaining_quantity_ bid) (Order.remaining_quantity_ ask));
      [lia|].
    simpl. by rewrite N.eqb_refl.
Qed.

Lemma level_ref_head reads line price queue (rest : list (Z * list Order.t)) :
  level_ref reads line price ((price, queue) :: rest) = Ok queue.
Proof. unfold level_ref; simpl. by rewrite Z.eqb_refl. Qed.

Lemma MatchLevels_Strict_head fuel bid_price ask_price b trades
    bid_queue rest_bids ask_queue rest_asks :
  bids_ b = (bid_price, bid_queue) :: rest_bids ->
  asks_ b = (ask_price, ask_queue) :: rest_asks ->
  MatchLevels Strict (S fuel) bid_price ask_price b trades =
    match bid_queue, ask_queue with
    | bid :: _, ask :: _ =>
        Undefined (if (Order.remaining_quantity_ bid <=? Order.remaining_quantity_ ask)%N
                   then 213 else 217)
    | _, _ => Ok (b, trades)
    end.
Proof.
  intros Hb Ha. cbn [MatchLevels]. rewrite Hb, level_ref_head. simpl.
  destruct bid_queue as [|bid bids]; [done|].
  rewrite Ha, level_ref_head. simpl.
  destruct ask_queue as [|ask asks]; [done|].
  by rewrite MatchFront_Strict.
Qed.

(** The outer loop under [Strict] leaves without an iteration of the inner
    loop, or runs into one of the two reads. *)
Lemma MatchLoop_Strict fuel : forall b trades,
  MatchLoop Strict fuel b trades = Ok (b, trades) ∨
  MatchLoop Strict fuel b trades = OutOfFuel ∨
  exists line,
    MatchLoop Strict fuel b trades = Undefined line ∧ (line = 213 ∨ line = 217)%nat.
Proof.
  induction fuel as [|fuel IH]; intros b trades; [right; by left|].
  cbn [MatchLoop].
  destruct (bids_ b) as [|[bid_price bid_queue] rest_bids] eqn:Hb; [by left|].
  destruct (asks_ b) as [|[ask_price ask_queue] rest_asks] eqn:Ha; [by left|].
  destruct (bid_price <? ask_price); [by left|].
  rewrite (MatchLevels_Strict_head fuel _ _ b trades _ _ _ _ Hb Ha).
  destruct bid_queue as [|bid bids]; [simpl; apply IH|].
  destruct ask_queue as [|ask asks]; [simpl; apply IH|].
  right; right. simpl. eexists. split; [done|].
  destruct (_ <=? _)%N; [by left|by right].
Qed.

Lemma MatchOrders_Strict b :
  MatchOrders Strict b = Ok (b, []) ∨
  MatchOrders Strict b = OutOfFuel ∨
  exists line, MatchOrders Strict b = Undefined line ∧ (line = 213 ∨ line = 217)%nat.
Proof.
  unfold MatchOrders.
  destruct (MatchLoop_Strict (S (length (resting b))) b []) as [H|[H|(line & H & Hl)]];
    rewrite H; simpl.
  - left. by rewrite AfterLoop_id.
  - right. by left.
  - right; right. by exists line.
Qed.

Lemma MatchOrders_Strict_crossed b bid_price bid bids rest_bids ask_price ask asks rest_asks :
  bids_ b = (bid_price, bid :: bids) :: rest_bids ->
  asks_ b = (ask_price, ask :: asks) :: rest_asks ->
  ask_price <= bid_price ->
  MatchOrders Strict b =
    Undefined (if (Order.remaining_quantity_ bid <=? Order.remaining_quantity_ ask)%N
               then 213 else 217).
Proof.
  intros Hb Ha Hx. unfold MatchOrders. cbn [MatchLoop]. rewrite Hb, Ha.
  destruct (Z.ltb_spec bid_price ask_price); [lia|].
  by rewrite (MatchLevels_Strict_head _ _ _ b [] _ _ _ _ Hb Ha).
Qed.

(** ** [AddOrder] *)

(** The three ways through [AddOrder], whatever the reading of the
    dangling reads. *)
Lemma AddOrder_paths reads order b :
  (AddOrder reads order b = Ok (b, []) ∧
   (is_Some (orders_ b !! Order.order_id_ order) ∨
    (Order.order_type_ order = FillAndKill ∧
     CanMatch (Order.side_ order) (Order.price_ order) b = false))) ∨
  (AddOrder reads order b = MatchOrders reads (inserted order b) ∧
   orders_ b !! Order.order_id_ order = None ∧
   (Order.order_type_ order = GoodTillCancel ∨
    CanMatch (Order.side_ order) (Order.price_ order) b = true)).
Proof.
  destruct (orders_ b !! Order.order_id_ order) as [e|] eqn:He.
  { left. split; [|left; eauto]. apply AddOrder_duplicate. rewrite He. eauto. }
  destruct (Order.order_type_ order) eqn:Ht.
  { right. split_and!; [|done|by left]. apply AddOrder_accept; [done|by left]. }
  destruct (CanMatch (Order.side_ order) (Order.price_ order) b) eqn:Hm.
  - right. split_and!; [|done|by right]. apply AddOrder_accept; [done|by right].
  - left. split; [|by right]. by apply AddOrder_reject.
Qed.

(** An order that crosses: the first iteration is on the new order, alone
    at the front of its side, and the front order [a] of the best level of
    the other side. *)
Lemma AddOrder_Strict_crossing order b best a queue rest :
  wf b -> orders_ b !! Order.order_id_ order = None ->
  CanMatch (Order.side_ order) (Order.price_ order) b = true ->
  side_levels (opposite (Order.side_ order)) b = (best, a :: queue) :: rest ->
  AddOrder Strict order b =
    Undefined
      (match Order.side_ order with
       | Buy =>
           if (Order.remaining_quantity_ order <=? Order.remaining_quantity_ a)%N
           then 213 else 217
       | Sell =>
           if (Order.remaining_quantity_ a <=? Order.remaining_quantity_ order)%N
           then 213 else 217
       end).
Proof.
  intros [Hc Hu] Hn Hm Hopp.
  rewrite AddOrder_accept by (done || by right).
  pose proof (inserted_front order b Hu Hm) as Hfront.
  assert (side_levels (opposite (Order.side_ order)) (inserted order b) =
          (best, a :: queue) :: rest) as Hopp'.
  { rewrite side_levels_inserted, decide_False by (by destruct (Order.side_ order)).
    done. }
  destruct (proj1 (CanMatch_true_sides _ _ _) Hm) as (best0 & queue0 & rest0 & Hopp0 & Hcross).
  rewrite Hopp in Hopp0. injection Hopp0 as <- <- <-.
  destruct (Order.side_ order); simpl in *.
  - eapply MatchOrders_Strict_crossed; [exact Hfront|exact Hopp'|lia].
  - eapply MatchOrders_Strict_crossed; [exact Hopp'|exact Hfront|lia].
Qed.

Lemma crossing_front side price b :
  consistent b -> CanMatch side price b = true ->
  exists best a queue rest, side_levels (opposite side) b = (best, a :: queue) :: rest.
Proof.
  intros Hc (best & queue & rest & Hopp & _)%CanMatch_true_sides.
  pose proof (consistent_level_ok (opposite side) b Hc) as Hl.
  rewrite Hopp in Hl. apply Forall_cons in Hl as [[Hne _] _].
  destruct queue as [|a queue]; [done|]. by exists best, a, queue, rest.
Qed.

Lemma AddOrder_Strict_crossing_line order b :
  wf b -> orders_ b !! Order.order_id_ order = None ->
  CanMatch (Order.side_ order) (Order.price_ order) b = true ->
  exists line, AddOrder Strict order b = Undefined line ∧ (line = 213 ∨ line = 217)%nat.
Proof.
  intros Hwf Hn Hm.
  destruct (crossing_front _ _ _ (proj1 Hwf) Hm) as (best & a & queue & rest & Hopp).
  rewrite (AddOrder_Strict_crossing order b best a queue rest Hwf Hn Hm Hopp).
  eexists. split; [done|].
  destruct (Order.side_ order); destruct (_ <=? _)%N; (by left) || (by right).
Qed.

(** What a call of [AddOrder] that returns under [Strict] has done. *)
Lemma AddOrder_Strict_Ok order b b' trades :
  AddOrder Strict order b = Ok (b', trades) ->
  trades = [] ∧
  ((b' = b ∧
    (is_Some (orders_ b !! Order.order_id_ order) ∨
     (Order.order_type_ order = FillAndKill ∧
      CanMatch (Order.side_ order) (Order.price_ order) b = false))) ∨
   (b' = inserted order b ∧ orders_ b !! Order.order_id_ order = None ∧
    (Order.order_type_ order = GoodTillCancel ∨
     CanMatch (Order.side_ order) (Order.price_ order) b = true))).
Proof.
  intros Hrun.
  destruct (AddOrder_paths Strict order b) as [[Hsame Hwhy]|(Heq & Hn & Hacc)].
  - rewrite Hsame in Hrun. injection Hrun as <- <-. split; [done|by left].
  - rewrite Heq in Hrun.
    destruct (MatchOrders_Strict (inserted order b)) as [H|[H|(line & H & _)]];
      rewrite H in Hrun; try discriminate.
    injection Hrun as <- <-. split; [done|by right].
Qed.

Lemma AddOrder_Strict_wf order b b' trades :
  wf b -> AddOrder Strict order b = Ok (b', trades) ->
  trades = [] ∧
  (b' = b ∨
   (b' = inserted order b ∧ orders_ b !! Order.order_id_ order = None ∧
    Order.order_type_ order = GoodTillCancel ∧
    CanMatch (Order.side_ order) (Order.price_ order) b = false)) ∧
  wf b'.
Proof.
  intros Hwf Hrun.
  destruct (AddOrder_Strict_Ok _ _ _ _ Hrun) as [-> [[-> _]|(-> & Hn & Hacc)]].
  { split_and!; [done|by left|done]. }
  destruct (CanMatch (Order.side_ order) (Order.price_ order) b) eqn:Hm.
  { destruct (AddOrder_Strict_crossing_line order b Hwf Hn Hm) as (line & H & _).
    congruence. }
  destruct Hacc as [Ht|?]; [|done].
  split_and!; [done|by right|].
  destruct Hwf as [Hc Hu]. split.
  - by apply consistent_inserted.
  - by apply inserted_uncrossed.
Qed.

(** ** [CancelOrder] and [MatchOrder] *)

Lemma CancelOrder_unregistered reads id b :
  orders_ b !! id = None -> CancelOrder reads id b = Ok b.
Proof. intros Hn. unfold CancelOrder. by rewrite Hn. Qed.

(** Line 279 reads [order] through the entry that line 277 erased. *)
Lemma CancelOrder_Strict id b :
  CancelOrder Strict id b =
    match orders_ b !! id with
    | None => Ok b
    | Some _ => Undefined 279
    end.
Proof. unfold CancelOrder. by destruct (orders_ b !! id) as [[order iterator]|]. Qed.

Lemma MatchOrder_unregistered reads order b :
  orders_ b !! OrderModify.order_id_ order = None -> MatchOrder reads order b = Ok (b, []).
Proof. intros Hn. unfold MatchOrder, OrderModify.GetOrderId. by rewrite Hn. Qed.

Lemma MatchOrder_Strict order b :
  MatchOrder Strict order b =
    match orders_ b !! OrderModify.order_id_ order with
    | None => Ok (b, [])
    | Some _ => Undefined 279
    end.
Proof.
  unfold MatchOrder, OrderModify.GetOrderId.
  destruct (orders_ b !! OrderModify.order_id_ order) as [[existing_order iterator]|] eqn:He;
    [|done].
  by rewrite CancelOrder_Strict, He.
Qed.

(** ** Sequences of calls that return *)

Lemma exec_Strict_Ok o b b' trades :
  wf b -> exec Strict o b = Ok (b', trades) ->
  trades = [] ∧ wf b' ∧
  (b' = b ∨
   exists order_id side price quantity,
     let order := Order.new GoodTillCancel order_id side price quantity in
     o = Add GoodTillCancel order_id side price quantity ∧
     b' = inserted order b ∧ orders_ b !! order_id = None ∧
     CanMatch side price b = false).
Proof.
  intros Hwf Hrun.
  destruct o as [order_type order_id side price quantity|order_id|order]; simpl in Hrun.
  - destruct (AddOrder_Strict_wf _ _ _ _ Hwf Hrun)
      as (-> & [->|(-> & Hn & Ht & Hm)] & Hwf').
    + split_and!; [done|done|by left].
    + split_and!; [done|done|]. right. simpl in Ht. subst order_type.
      by exists order_id, side, price, quantity.
  - rewrite CancelOrder_Strict in Hrun.
    destruct (orders_ b !! order_id); [done|]. injection Hrun as <- <-.
    split_and!; [done|done|by left].
  - rewrite MatchOrder_Strict in Hrun.
    destruct (orders_ b !! OrderModify.order_id_ order); [done|]. injection Hrun as <- <-.
    split_and!; [done|done|by left].
Qed.

Lemma run_Strict_Ok ops : forall b b' trades,
  wf b -> run Strict ops b = Ok (b', trades) ->
  trades = [] ∧ wf b' ∧
  forall o, o ∈ resting b' ->
    o ∈ resting b ∨
    (Order.order_type_ o = GoodTillCancel ∧
     Order.remaining_quantity_ o = Order.initial_quantity_ o).
Proof.
  induction ops as [|o ops IH]; intros b b' trades Hwf Hrun; simpl in Hrun.
  - injection Hrun as <- <-. split_and!; [done|done|]. intros o Ho. by left.
  - apply bind_Ok in Hrun as ([b1 t1] & Hex & Hrun).
    apply bind_Ok in Hrun as ([b2 t2] & Hrest & [= <- <-]).
    destruct (exec_Strict_Ok _ _ _ _ Hwf Hex) as (-> & Hwf1 & Hb1).
    destruct (IH _ _ _ Hwf1 Hrest) as (-> & Hwf2 & Hin).
    split_and!; [done|done|].
    intros x Hx. destruct (Hin x Hx) as [Hx1|?]; [|by right].
    destruct Hb1 as [->|(order_id & side & price & quantity & _ & -> & _ & _)]; [by left|].
    rewrite resting_inserted in Hx1. apply elem_of_cons in Hx1 as [->|?]; [|by left].
    right. done.
Qed.

Lemma reachable_Strict_wf b : reachable Strict b -> wf b.
Proof.
  intros (ops & trades & Hrun).
  by destruct (run_Strict_Ok ops _ _ _ wf_empty Hrun) as (_ & Hwf & _).
Qed.

(** The books between two public calls are well formed under either
    reading. *)
Lemma reachable_any_wf reads b : reachable reads b -> wf b.
Proof. destruct reads; [apply reachable_Strict_wf|apply reachable_wf]. Qed.

(** ** The scenarios of the specification *)

(** In the first scenario the buy is filled, unlinked, and read again at
    line 213. *)
Example scenario_partial_fill :
  run Strict [Add GoodTillCancel 1 Sell 100 10; Add GoodTillCancel 2 Buy 100 4]
    OrderBook.empty = Undefined 213.
Proof. vm_compute. reflexivity. Qed.

Example scenario_FillAndKill_rejected :
  AddOrder Strict (Order.new FillAndKill 3 Buy 50 5) OrderBook.empty =
    Ok (OrderBook.empty, []).
Proof. vm_compute. reflexivity. Qed.

(** * The properties of the specification *)

(** C1.  A FillAndKill order that crosses and is filled in part stays in the
    book: a buy of 10 against a resting sell of 4 at the same price trades 4
    and then rests with 6 remaining, queued at its level and registered.
    The calls are read [AsBuilt], the reading under which the call
    returns.  The two blocks after the loop (lines 228-242), whose
    statement is commented out, leave every book as it is. *)
Theorem FillAndKill_partial_fill_rests :
  AddOrder AsBuilt sell_4 OrderBook.empty = Ok (book_sell_4, []) ∧
  AddOrder AsBuilt fak_buy_10 book_sell_4 =
    Ok (book_fak_rests, [Trade.mk (TradeInfo.mk 2 100 4) (TradeInfo.mk 1 100 4)]) ∧
  PriceMap.level 100 (bids_ book_fak_rests) = [filled_by 4 fak_buy_10] ∧
  Order.order_type_ (filled_by 4 fak_buy_10) = FillAndKill ∧
  Order.remaining_quantity_ (filled_by 4 fak_buy_10) = 6%N ∧
  Order.IsFilled (filled_by 4 fak_buy_10) = false ∧
  orders_ book_fak_rests !! 2%N = Some (mkEntry (filled_by 4 fak_buy_10) 2) ∧
  Size book_fak_rests = 1%nat ∧
  (forall b, AfterLoop b = b).
Proof. split_and!; try (vm_compute; reflexivity). apply AfterLoop_id. Qed.

(** C2.  An iteration of the matching loop fills the front bid and the
    front ask by the minimum of their remaining quantities, as the
    specification says.  That fills one of the two at least; [pop_front]
    destroys the queue node of a filled order, and the iteration then reads
    the order through the reference that was bound to that node: at line
    213 when the bid is filled, at line 217 otherwise.  The iteration has no defined
    result, and neither has the trade record, which lines 222-225 build
    through the same references. *)
Theorem matching_iteration_undefined bid_price ask_price bid bids ask asks b :
  let quantity := N.min (Order.remaining_quantity_ bid) (Order.remaining_quantity_ ask) in
  Order.Fill quantity bid = Ok (filled_by quantity bid) ∧
  Order.Fill quantity ask = Ok (filled_by quantity ask) ∧
  (Order.IsFilled (filled_by quantity bid) = true ∨
   Order.IsFilled (filled_by quantity ask) = true) ∧
  MatchFront Strict bid_price ask_price bid bids ask asks b =
    Undefined (if (Order.remaining_quantity_ bid <=? Order.remaining_quantity_ ask)%N
               then 213 else 217) ∧
  MatchFront Strict 100 100 fak_buy_10 [] sell_4 [] book_crossing = Undefined 217.
Proof.
  intros quantity. split_and!.
  - apply Fill_Ok. unfold quantity. lia.
  - apply Fill_Ok. unfold quantity. lia.
  - rewrite !IsFilled_filled_by by (unfold quantity; lia).
    destruct (N.le_ge_cases (Order.remaining_quantity_ bid) (Order.remaining_quantity_ ask)).
    + left. apply N.eqb_eq. unfold quantity. lia.
    + right. apply N.eqb_eq. unfold quantity. lia.
  - apply MatchFront_Strict.
  - apply MatchFront_Strict.
Qed.

(** C3.  A book between two public calls is not crossed, but the call that
    should keep it so has no defined result when it matters: for an order
    with a fresh identifier that crosses, AddOrder runs into the read of
    line 213 or of line 217 in the first iteration of the matching loop. *)
Theorem crossing_order_undefined b order :
  reachable Strict b ->
  orders_ b !! Order.order_id_ order = None ->
  CanMatch (Order.side_ order) (Order.price_ order) b = true ->
  uncrossed b ∧
  exists line,
    AddOrder Strict order b = Undefined line ∧ (line = 213 ∨ line = 217)%nat.
Proof.
  intros Hwf%reachable_Strict_wf Hn Hm. split; [apply Hwf|].
  by apply AddOrder_Strict_crossing_line.
Qed.

Lemma crossing_order_undefined_witness :
  uncrossed book_sell_4 ∧
  exists line,
    AddOrder Strict fak_buy_10 book_sell_4 = Undefined line ∧
    (line = 213 ∨ line = 217)%nat.
Proof.
  apply (crossing_order_undefined book_sell_4 fak_buy_10).
  - exists [Add GoodTillCancel 1 Sell 100 4], []. vm_compute. reflexivity.
  - reflexivity.
  - reflexivity.
Defined.

(** C4.  An order is appended at the back of the queue of its level, so
    the queue is in the order of submission; but the fill of its front
    order has no defined result.  With two buys queued at 100 in the order
    of their submission, a sell at 100 for 6 fills the earlier buy, unlinks
    it, and reads it again at line 213. *)
Theorem priority_fill_undefined :
  (forall b order side p,
     reachable Strict b ->
     PriceMap.level p (side_levels side (inserted order b)) =
       if decide (side = Order.side_ order ∧ p = Order.price_ order)
       then PriceMap.level p (side_levels side b) ++ [order]
       else PriceMap.level p (side_levels side b)) ∧
  run Strict [Add GoodTillCancel 1 Buy 100 5; Add GoodTillCancel 2 Buy 100 7]
    OrderBook.empty = Ok (book_two_buys, []) ∧
  PriceMap.level 100 (bids_ book_two_buys) = [buy_a; buy_b] ∧
  AddOrder Strict (Order.new GoodTillCancel 3 Sell 100 6) book_two_buys = Undefined 213.
Proof.
  split_and!; try (vm_compute; reflexivity).
  intros b order side p [Hc _]%reachable_Strict_wf. by apply level_inserted.
Qed.

Lemma priority_fill_undefined_witness :
  PriceMap.level 100 (side_levels Buy (inserted buy_b (inserted buy_a OrderBook.empty))) =
    PriceMap.level 100 (side_levels Buy (inserted buy_a OrderBook.empty)) ++ [buy_b].
Proof.
  destruct priority_fill_undefined as (Hback & _).
  apply (Hback (inserted buy_a OrderBook.empty) buy_b Buy 100).
  exists [Add GoodTillCancel 1 Buy 100 5], []. vm_compute. reflexivity.
Defined.

(** C5.  CancelOrder of an identifier that is not registered returns with
    the book as it was.  For a registered identifier line 277 erases the
    registry entry, and line 279 reads the order through the reference
    bound to that entry: the call has no defined result. *)
Theorem CancelOrder_registered_undefined b id :
  (orders_ b !! id = None -> forall reads, CancelOrder reads id b = Ok b) ∧
  (is_Some (orders_ b !! id) -> CancelOrder Strict id b = Undefined 279).
Proof.
  split.
  - intros Hn reads. by apply CancelOrder_unregistered.
  - intros [e He]. by rewrite CancelOrder_Strict, He.
Qed.

Lemma CancelOrder_registered_undefined_witness :
  CancelOrder Strict 1 book_sell_4 = Undefined 279.
Proof.
  destruct (CancelOrder_registered_undefined book_sell_4 1) as [_ Hreg].
  apply Hreg. exists (mkEntry sell_4 1). reflexivity.
Defined.

(** C6.  ModifyOrder of an identifier that is not registered returns no
    trade and the book as it was.  For a registered identifier the routine
    does not capture the kind of the existing order before it cancels: it
    cancels first, which under [Strict] ends at the read of line 279, and
    it reads the kind at line 299, through the entry and the order that the
    cancellation destroyed. *)
Theorem ModifyOrder_registered_undefined b order :
  (orders_ b !! OrderModify.order_id_ order = None ->
   forall reads, MatchOrder reads order b = Ok (b, [])) ∧
  (is_Some (orders_ b !! OrderModify.order_id_ order) ->
   MatchOrder Strict order b = Undefined 279) ∧
  (forall reads e b1,
     orders_ b !! OrderModify.order_id_ order = Some e ->
     CancelOrder reads (OrderModify.order_id_ order) b = Ok b1 ->
     MatchOrder reads order b =
       order_type ← dangling reads 299 (Order.order_type_ (order_ e));
       AddOrder reads (OrderModify.ToOrderPointer order order_type) b1).
Proof.
  split_and!.
  - intros Hn reads. by apply MatchOrder_unregistered.
  - intros [e He]. by rewrite MatchOrder_Strict, He.
  - intros reads [existing_order iterator] b1 He Hcancel.
    unfold MatchOrder, OrderModify.GetOrderId. by rewrite He, Hcancel.
Qed.

Lemma ModifyOrder_registered_undefined_witness :
  MatchOrder Strict (OrderModify.mk 1 Sell 101 4) book_sell_4 = Undefined 279.
Proof.
  destruct (ModifyOrder_registered_undefined book_sell_4 (OrderModify.mk 1 Sell 101 4))
    as (_ & Hreg & _).
  apply Hreg. exists (mkEntry sell_4 1). reflexivity.
Defined.

(** C7.  AddOrder returns no trade and the book it was given in exactly
    two cases: the identifier of the order is registered already, or the
    order is FillAndKill and cannot cross at once (the opposite side is
    empty, a buy is priced below the best ask, a sell is priced above the
    best bid).  This holds under either reading of the dangling reads: the
    two returns come before any of them. *)
Theorem AddOrder_no_effect_iff reads order b :
  AddOrder reads order b = Ok (b, []) <->
  is_Some (orders_ b !! Order.order_id_ order) ∨
  (Order.order_type_ order = FillAndKill ∧
   match Order.side_ order with
   | Buy => asks_ b = [] ∨ exists best_ask queue rest,
              asks_ b = (best_ask, queue) :: rest ∧ Order.price_ order < best_ask
   | Sell => bids_ b = [] ∨ exists best_bid queue rest,
              bids_ b = (best_bid, queue) :: rest ∧ best_bid < Order.price_ order
   end).
Proof.
  rewrite <- CanMatch_false. split.
  - intros Hrun.
    destruct (AddOrder_paths reads order b) as [[_ Hwhy]|(Heq & Hn & _)]; [done|].
    exfalso. rewrite Heq in Hrun.
    assert (b = inserted order b) as Hsame.
    { destruct reads.
      - destruct (MatchOrders_Strict (inserted order b)) as [H|[H|(line & H & _)]];
          rewrite H in Hrun; try discriminate.
        by injection Hrun.
      - by apply MatchOrders_grow in Hrun. }
    apply (f_equal (fun x => orders_ x !! Order.order_id_ order)) in Hsame.
    unfold inserted, registry_insert in Hsame; simpl in Hsame.
    rewrite Hn, lookup_insert_eq in Hsame. done.
  - intros [Hs|[Ht Hm]].
    + by apply AddOrder_duplicate.
    + by apply AddOrder_reject.
Qed.

(** C8.  Order::Fill raises exactly when the quantity exceeds the remaining
    quantity, and the matching loop never asks for that: the two requests
    of an iteration are the minimum of the two remaining quantities, and
    neither the iteration nor a call of AddOrder raises.  What the
    specification says of the trades has nothing to stand on: a call of
    AddOrder returns without a trade or not at all, since every iteration
    ends in the read of line 213 or 217. *)
Theorem fills_within_remaining_undefined :
  (forall quantity o,
     (Order.Fill quantity o = Throw logic_error <->
      (Order.remaining_quantity_ o < quantity)%N) ∧
     ((quantity <= Order.remaining_quantity_ o)%N ->
      Order.Fill quantity o = Ok (filled_by quantity o))) ∧
  (forall reads bid_price ask_price bid bids ask asks b e,
     MatchFront reads bid_price ask_price bid bids ask asks b ≠ Throw e) ∧
  (forall b order e, reachable Strict b -> AddOrder Strict order b ≠ Throw e) ∧
  (forall b order b' trades,
     reachable Strict b -> AddOrder Strict order b = Ok (b', trades) -> trades = []) ∧
  AddOrder Strict fak_buy_10 book_sell_4 = Undefined 217.
Proof.
  split_and!.
  - intros quantity o. split; [split|].
    + intros Hthrow.
      destruct (N.lt_ge_cases (Order.remaining_quantity_ o) quantity) as [?|Hle]; [done|].
      by rewrite Fill_Ok in Hthrow.
    + apply Fill_Throw.
    + apply Fill_Ok.
  - intros reads bid_price ask_price bid bids ask asks b e. destruct reads.
    + by rewrite MatchFront_Strict.
    + by rewrite MatchFront_Ok.
  - intros b order e _.
    destruct (AddOrder_paths Strict order b) as [[-> _]|[-> _]]; [done|].
    by destruct (MatchOrders_Strict (inserted order b)) as [H|[H|(line & H & _)]];
      rewrite H.
  - intros b order b' trades _ Hrun. by apply AddOrder_Strict_Ok in Hrun as [-> _].
  - vm_compute. reflexivity.
Qed.

Lemma fills_within_remaining_undefined_witness :
  Order.Fill 4 sell_4 = Ok (filled_by 4 sell_4).
Proof.
  destruct fills_within_remaining_undefined as (Hfill & _).
  destruct (Hfill 4%N sell_4) as [_ Hok]. apply Hok. vm_compute. discriminate.
Defined.

(** C9, as the specification states it, fails: two resting buys of [2^31]
    each at the price 100 make a level whose quantities sum to [2^32], and
    the depth query reports the quantity 0 for it. *)
Lemma depth_exact_fails :
  AddOrder Strict big_buy_1 OrderBook.empty = Ok ({|
      bids_ := [(100, [big_buy_1])]; asks_ := [];
      orders_ := {[ 1%N := mkEntry big_buy_1 1 ]} |}, []) ∧
  AddOrder Strict big_buy_2 {|
      bids_ := [(100, [big_buy_1])]; asks_ := [];
      orders_ := {[ 1%N := mkEntry big_buy_1 1 ]} |} = Ok (book_big, []) ∧
  OrderBookLevelInfos.bids_ (GetOrderInfos book_big) = [LevelInfo.mk 100 0] ∧
  total_remaining (PriceMap.level 100 (bids_ book_big)) = 4294967296%N ∧
  ¬ depth_exact book_big.
Proof.
  split_and!; try (vm_compute; reflexivity).
  unfold depth_exact. vm_compute. intros [=].
Qed.

(** C9, amended.  The depth query returns, for each side in the order of
    that side's map (bids by descending price, asks by ascending price), one
    entry per level, pairing the price of the level with the sum of the
    remaining quantities of its orders taken modulo [2^32], which is the sum
    itself whenever that is below [2^32].  The query is a function of the
    book and does not change it. *)
Theorem GetOrderInfos_depth reads b :
  reachable reads b ->
  GetOrderInfos b =
    OrderBookLevelInfos.mk (wrapped_level <$> bids_ b) (wrapped_level <$> asks_ b) ∧
  LevelInfo.price_ <$> OrderBookLevelInfos.bids_ (GetOrderInfos b) = (bids_ b).*1 ∧
  LevelInfo.price_ <$> OrderBookLevelInfos.asks_ (GetOrderInfos b) = (asks_ b).*1 ∧
  StronglySorted (fun p q => q < p)
    (LevelInfo.price_ <$> OrderBookLevelInfos.bids_ (GetOrderInfos b)) ∧
  StronglySorted (fun p q => p < q)
    (LevelInfo.price_ <$> OrderBookLevelInfos.asks_ (GetOrderInfos b)) ∧
  (forall lv, lv ∈ bids_ b ++ asks_ b ->
     (total_remaining lv.2 < Quantity_modulus)%N -> wrapped_level lv = exact_level lv).
Proof.
  intros [Hc _]%reachable_any_wf.
  assert (Hprices : forall m : list (Z * list Order.t),
            LevelInfo.price_ <$> (wrapped_level <$> m) = m.*1).
  { intros m. rewrite <- list_fmap_compose. by apply list_fmap_ext. }
  rewrite GetOrderInfos_wrapped. simpl. rewrite !Hprices.
  split_and!; try done; try apply Hc.
  intros lv _ Hlt. unfold wrapped_level, exact_level. by rewrite N.mod_small.
Qed.

Lemma GetOrderInfos_depth_witness :
  GetOrderInfos book_sell_4 =
    OrderBookLevelInfos.mk (wrapped_level <$> bids_ book_sell_4)
      (wrapped_level <$> asks_ book_sell_4) ∧
  LevelInfo.price_ <$> OrderBookLevelInfos.bids_ (GetOrderInfos book_sell_4) =
    (bids_ book_sell_4).*1 ∧
  LevelInfo.price_ <$> OrderBookLevelInfos.asks_ (GetOrderInfos book_sell_4) =
    (asks_ book_sell_4).*1 ∧
  StronglySorted (fun p q => q < p)
    (LevelInfo.price_ <$> OrderBookLevelInfos.bids_ (GetOrderInfos book_sell_4)) ∧
  StronglySorted (fun p q => p < q)
    (LevelInfo.price_ <$> OrderBookLevelInfos.asks_ (GetOrderInfos book_sell_4)) ∧
  (forall lv, lv ∈ bids_ book_sell_4 ++ asks_ book_sell_4 ->
     (total_remaining lv.2 < Quantity_modulus)%N -> wrapped_level lv = exact_level lv).
Proof.
  apply (GetOrderInfos_depth Strict book_sell_4).
  exists [Add GoodTillCancel 1 Sell 100 4], []. vm_compute. reflexivity.
Defined.

(** C10.  A FillAndKill order rests only after it was filled in part, and
    the iteration that fills it has no defined result: in a book reached by
    calls that all returned under [Strict] every queued order is
    GoodTillCancel.  The modification of a registered FillAndKill order, as
    of any registered order, ends at the read of line 279; so it does on the
    book in which the buy of C1 rests. *)
Theorem Modify_FillAndKill_undefined :
  (forall b o,
     reachable Strict b -> o ∈ resting b -> Order.order_type_ o = GoodTillCancel) ∧
  AddOrder Strict fak_buy_10 book_sell_4 = Undefined 217 ∧
  (forall b order e,
     orders_ b !! OrderModify.order_id_ order = Some e ->
     Order.order_type_ (order_ e) = FillAndKill ->
     MatchOrder Strict order b = Undefined 279) ∧
  MatchOrder Strict (OrderModify.mk 2 Buy 90 6) book_fak_rests = Undefined 279.
Proof.
  split_and!; try (vm_compute; reflexivity).
  - intros b o (ops & trades & Hrun) Ho.
    destruct (run_Strict_Ok ops _ _ _ wf_empty Hrun) as (_ & _ & Hin).
    destruct (Hin o Ho) as [Hempty|[Ht _]]; [|done].
    by apply elem_of_nil in Hempty.
  - intros b order e He _. by rewrite MatchOrder_Strict, He.
Qed.

Lemma Modify_FillAndKill_undefined_witness :
  Order.order_type_ sell_4 = GoodTillCancel.
Proof.
  destruct Modify_FillAndKill_undefined as (Hkind & _).
  apply (Hkind book_sell_4 sell_4).
  - exists [Add GoodTillCancel 1 Sell 100 4], []. vm_compute. reflexivity.
  - vm_compute. left.
Defined.

(** * Further properties of the code *)

(** ** Books built by calls that return *)

(** X1.  A book reached by public calls that all returned under [Strict]
    keeps its representation: the bids are in strictly descending and the
    asks in strictly ascending order of price, no level has an empty
    queue, every queued order sits on its own side at its own price, no
    identifier is queued twice, and the registry holds exactly the queued
    orders, each under its identifier. *)
Theorem reachable_consistent b : reachable Strict b -> consistent b.
Proof. intros Hr. by apply reachable_Strict_wf in Hr as [Hc _]. Qed.

Lemma reachable_consistent_witness : consistent book_two_levels.
Proof.
  apply (reachable_consistent book_two_levels).
  exists [Add GoodTillCancel 1 Buy 100 5; Add GoodTillCancel 2 Buy 99 7], [].
  vm_compute. reflexivity.
Defined.

(** X2.  In a book reached by public calls that all returned under
    [Strict], Size() is the number of orders queued on the two sides. *)
Theorem Size_counts_queued b :
  reachable Strict b ->
  Size b = (length (concat (bids_ b).*2) + length (concat (asks_ b).*2))%nat.
Proof.
  intros [Hc _]%reachable_Strict_wf. rewrite (consistent_size b Hc).
  unfold resting. by rewrite length_app.
Qed.

Lemma Size_counts_queued_witness :
  Size book_two_levels =
    (length (concat (bids_ book_two_levels).*2) +
     length (concat (asks_ book_two_levels).*2))%nat.
Proof.
  apply (Size_counts_queued book_two_levels).
  exists [Add GoodTillCancel 1 Buy 100 5; Add GoodTillCancel 2 Buy 99 7], [].
  vm_compute. reflexivity.
Defined.

(** X3.  In a book reached by public calls that all returned under
    [Strict], the depth query has at most Size() entries in all (the
    capacity it reserves), and it has no entry exactly when the book holds
    no order. *)
Theorem GetOrderInfos_entries b :
  reachable Strict b ->
  (length (OrderBookLevelInfos.bids_ (GetOrderInfos b)) +
   length (OrderBookLevelInfos.asks_ (GetOrderInfos b)) <= Size b)%nat ∧
  (Size b = 0%nat <->
   OrderBookLevelInfos.bids_ (GetOrderInfos b) = [] ∧
   OrderBookLevelInfos.asks_ (GetOrderInfos b) = []).
Proof.
  intros [Hc _]%reachable_Strict_wf. rewrite (consistent_size b Hc).
  unfold GetOrderInfos, resting.
  cbn [OrderBookLevelInfos.bids_ OrderBookLevelInfos.asks_].
  rewrite !length_fmap, length_app.
  pose proof (levels_length_le _ _ (bids_levels _ Hc)) as Hb.
  pose proof (levels_length_le _ _ (asks_levels _ Hc)) as Ha.
  split; [by apply Nat.add_le_mono|].
  split.
  - intros Hz.
    assert (length (bids_ b) = 0%nat) as Hb0 by lia.
    assert (length (asks_ b) = 0%nat) as Ha0 by lia.
    apply nil_length_inv in Hb0, Ha0. by rewrite Hb0, Ha0.
  - intros [Hbi Hai].
    apply fmap_nil_inv in Hbi, Hai. by rewrite Hbi, Hai.
Qed.

Lemma GetOrderInfos_entries_witness :
  (length (OrderBookLevelInfos.bids_ (GetOrderInfos book_two_levels)) +
   length (OrderBookLevelInfos.asks_ (GetOrderInfos book_two_levels)) <=
   Size book_two_levels)%nat ∧
  (Size book_two_levels = 0%nat <->
   OrderBookLevelInfos.bids_ (GetOrderInfos book_two_levels) = [] ∧
   OrderBookLevelInfos.asks_ (GetOrderInfos book_two_levels) = []).
Proof.
  apply (GetOrderInfos_entries book_two_levels).
  exists [Add GoodTillCancel 1 Buy 100 5; Add GoodTillCancel 2 Buy 99 7], [].
  vm_compute. reflexivity.
Defined.

(** ** [Order] *)

(** X4.  A sequence of calls of Fill on an order succeeds exactly when the
    quantities add up to the remaining quantity at most, and then takes
    their sum from it; otherwise some call raises.  On an order fresh from
    the constructor with a 32-bit quantity, GetFilledQuantity is then that
    sum, and IsFilled holds exactly when the sum is the whole quantity. *)
Theorem Fill_sequence quantities :
  (forall o,
     ((total quantities <= Order.remaining_quantity_ o)%N ->
      Fills quantities o = Ok (filled_by (total quantities) o)) ∧
     ((Order.remaining_quantity_ o < total quantities)%N ->
      Fills quantities o = Throw logic_error)) ∧
  (forall order_type order_id side price quantity,
     (total quantities <= quantity)%N -> (quantity < Quantity_modulus)%N ->
     exists o,
       Fills quantities (Order.new order_type order_id side price quantity) = Ok o ∧
       Order.GetRemainingQuantity o = (quantity - total quantities)%N ∧
       Order.GetFilledQuantity o = total quantities ∧
       Order.GetInitialQuantity o = quantity ∧
       (Order.IsFilled o = true <-> total quantities = quantity)).
Proof.
  split.
  - intros o. rewrite Fills_eq. split; intros H.
    + by destruct (N.leb_spec (total quantities) (Order.remaining_quantity_ o)); [|lia].
    + by destruct (N.leb_spec (total quantities) (Order.remaining_quantity_ o)); [lia|].
  - intros order_type order_id side price quantity Hle Hlt.
    eexists. rewrite Fills_eq. simpl.
    destruct (N.leb_spec (total quantities) quantity); [|lia].
    split_and!; [done|done| |done|].
    + rewrite GetFilledQuantity_small; simpl; [lia|lia|done].
    + unfold Order.IsFilled; simpl. rewrite N.eqb_eq. lia.
Qed.

Lemma Fill_sequence_witness :
  exists o,
    Fills [4; 3]%N (Order.new GoodTillCancel 1 Sell 100 10) = Ok o ∧
    Order.GetRemainingQuantity o = (10 - total [4; 3])%N ∧
    Order.GetFilledQuantity o = total [4; 3]%N ∧
    Order.GetInitialQuantity o = 10%N ∧
    (Order.IsFilled o = true <-> total [4; 3]%N = 10%N).
Proof.
  destruct (Fill_sequence [4; 3]%N) as [_ Hnew].
  apply (Hnew GoodTillCancel 1%N Sell 100 10%N); vm_compute; congruence.
Defined.

(** ** Orders that rest and orders that cross *)

(** X9.  A GoodTillCancel order with a fresh identifier that cannot cross
    rests: AddOrder returns no trade, the order is registered and is the
    last of the queue of its level (a new level if there was none at its
    price), no other queue changes, and the size grows by one.  The call
    meets no dangling read: the statement holds under either reading. *)
Theorem AddOrder_rests reads b order :
  reachable reads b ->
  orders_ b !! Order.order_id_ order = None ->
  Order.order_type_ order = GoodTillCancel ->
  CanMatch (Order.side_ order) (Order.price_ order) b = false ->
  exists b',
    AddOrder reads order b = Ok (b', []) ∧
    orders_ b' !! Order.order_id_ order = Some (mkEntry order (Order.order_id_ order)) ∧
    (forall id, id ≠ Order.order_id_ order -> orders_ b' !! id = orders_ b !! id) ∧
    (forall side price,
       PriceMap.level price (side_levels side b') =
         if decide (side = Order.side_ order ∧ price = Order.price_ order)
         then PriceMap.level price (side_levels side b) ++ [order]
         else PriceMap.level price (side_levels side b)) ∧
    Size b' = S (Size b).
Proof.
  intros Hwf%reachable_any_wf Hn Ht Hm. exists (inserted order b).
  split_and!.
  - by apply AddOrder_resting_result.
  - unfold inserted, registry_insert; simpl. rewrite Hn. apply lookup_insert_eq.
  - intros id Hne. unfold inserted, registry_insert; simpl. rewrite Hn.
    by rewrite lookup_insert_ne.
  - intros side price. apply level_inserted, Hwf.
  - unfold Size, inserted, registry_insert; simpl. rewrite Hn.
    by apply map_size_insert_None.
Qed.

Lemma AddOrder_rests_witness :
  exists b',
    AddOrder Strict (Order.new GoodTillCancel 2 Sell 101 5) book_sell_4 = Ok (b', []) ∧
    orders_ b' !! 2%N =
      Some (mkEntry (Order.new GoodTillCancel 2 Sell 101 5) 2) ∧
    (forall id, id ≠ 2%N -> orders_ b' !! id = orders_ book_sell_4 !! id) ∧
    (forall side price,
       PriceMap.level price (side_levels side b') =
         if decide (side = Sell ∧ price = 101)
         then PriceMap.level price (side_levels side book_sell_4) ++
              [Order.new GoodTillCancel 2 Sell 101 5]
         else PriceMap.level price (side_levels side book_sell_4)) ∧
    Size b' = S (Size book_sell_4).
Proof.
  apply (AddOrder_rests Strict book_sell_4 (Order.new GoodTillCancel 2 Sell 101 5)).
  - exists [Add GoodTillCancel 1 Sell 100 4], []. vm_compute. reflexivity.
  - reflexivity.
  - reflexivity.
  - reflexivity.
Defined.

(** X12.  CanMatch decides whether AddOrder has a defined result: in a book
    reached by public calls that all returned under [Strict], AddOrder of
    an order with a fresh identifier, of either type, runs into a read
    through a destroyed reference exactly when CanMatch holds of the
    order's side and price. *)
Theorem CanMatch_iff_undefined b order :
  reachable Strict b ->
  orders_ b !! Order.order_id_ order = None ->
  (exists line, AddOrder Strict order b = Undefined line) <->
  CanMatch (Order.side_ order) (Order.price_ order) b = true.
Proof.
  intros Hwf%reachable_Strict_wf Hn. split.
  - intros [line Hrun].
    destruct (CanMatch (Order.side_ order) (Order.price_ order) b) eqn:Hm; [done|].
    destruct (Order.order_type_ order) eqn:Ht.
    + by rewrite AddOrder_resting_result in Hrun.
    + by rewrite AddOrder_reject in Hrun.
  - intros Hm.
    destruct (AddOrder_Strict_crossing_line order b Hwf Hn Hm) as (line & Hrun & _).
    by exists line.
Qed.

Lemma CanMatch_iff_undefined_witness :
  (exists line, AddOrder Strict fak_buy_10 book_sell_4 = Undefined line) <->
  CanMatch Buy 100 book_sell_4 = true.
Proof.
  apply (CanMatch_iff_undefined book_sell_4 fak_buy_10).
  - exists [Add GoodTillCancel 1 Sell 100 4], []. vm_compute. reflexivity.
  - reflexivity.
Defined.

(** ** Matching at rest *)

(** X19.  On a book reached by public calls that all returned under
    [Strict] the matching routine has nothing to do: it leaves the loop
    before any iteration and returns no trade and the book as it was,
    under either reading of the dangling reads. *)
Theorem MatchOrders_at_rest reads b :
  reachable Strict b -> MatchOrders reads b = Ok (b, []).
Proof.
  intros [_ Hu]%reachable_Strict_wf. by apply MatchOrders_uncrossed.
Qed.

Lemma MatchOrders_at_rest_witness :
  MatchOrders Strict book_two_levels = Ok (book_two_levels, []).
Proof.
  apply (MatchOrders_at_rest Strict book_two_levels).
  exists [Add GoodTillCancel 1 Buy 100 5; Add GoodTillCancel 2 Buy 99 7], [].
  vm_compute. reflexivity.
Defined.

(** ** Calls that return *)

(** X20.  No call with a defined result trades, cancels or modifies.  On
    a book reached by public calls that all returned under [Strict], a call
    of AddOrder that returns under [Strict] returns no trade, and it left
    the book as it was or queued and registered a GoodTillCancel order
    that cannot cross; CancelOrder and ModifyOrder return only for an
    identifier that is not registered, with the book as it was; and a
    sequence of calls that all return has returned no trade. *)
Theorem defined_calls_never_trade b :
  reachable Strict b ->
  (forall order b' trades,
     AddOrder Strict order b = Ok (b', trades) ->
     trades = [] ∧
     (b' = b ∨
      (b' = inserted order b ∧ Order.order_type_ order = GoodTillCancel ∧
       CanMatch (Order.side_ order) (Order.price_ order) b = false))) ∧
  (forall id b',
     CancelOrder Strict id b = Ok b' -> b' = b ∧ orders_ b !! id = None) ∧
  (forall order b' trades,
     MatchOrder Strict order b = Ok (b', trades) ->
     trades = [] ∧ b' = b ∧ orders_ b !! OrderModify.order_id_ order = None) ∧
  (forall ops b' trades, run Strict ops b = Ok (b', trades) -> trades = []).
Proof.
  intros Hwf%reachable_Strict_wf. split_and!.
  - intros order b' trades Hrun.
    destruct (AddOrder_Strict_wf _ _ _ _ Hwf Hrun)
      as (-> & [->|(-> & _ & Ht & Hm)] & _); (split; [done|]); [by left|by right].
  - intros id b' Hrun. rewrite CancelOrder_Strict in Hrun.
    destruct (orders_ b !! id); [done|]. by injection Hrun as <-.
  - intros order b' trades Hrun. rewrite MatchOrder_Strict in Hrun.
    destruct (orders_ b !! OrderModify.order_id_ order); [done|].
    by injection Hrun as <- <-.
  - intros ops b' trades Hrun.
    by destruct (run_Strict_Ok ops _ _ _ Hwf Hrun) as (-> & _).
Qed.

Lemma defined_calls_never_trade_witness :
  @nil Trade.t = [] ∧
  (book_sell_4 = OrderBook.empty ∨
   (book_sell_4 = inserted sell_4 OrderBook.empty ∧
    Order.order_type_ sell_4 = GoodTillCancel ∧
    CanMatch (Order.side_ sell_4) (Order.price_ sell_4) OrderBook.empty = false)).
Proof.
  destruct (defined_calls_never_trade OrderBook.empty) as (Hadd & _).
  - exists [], []. reflexivity.
  - apply (Hadd sell_4 book_sell_4 []). vm_compute. reflexivity.
Defined.
